(** * RUNORBIT: a leapfrog orbit integrator in a 3-D logarithmic potential

    A shallow embedding of [runorbit.py] (class [OrbitIntegrator] and the
    command-line entry point) together with the properties its
    specification states.

    Numbers.  The program computes with IEEE doubles through numpy.  The
    embedding uses the real numbers of the Standard Library: every
    arithmetic operation is the exact one, a decimal literal denotes the
    rational it spells, and [np.log] is the natural logarithm.  Rounding is
    therefore outside the model; the statements below are about the
    formulas the program evaluates and about its control flow.  One
    quantity, [mu2], is given in binary64 as well, to show where the two
    part.

    Arrays.  A one-dimensional numpy array of floats is a [list R]; the
    list [self.orbit] of four-element arrays is a [list (list R)].

    Exceptions.  A Python exception is a value [Raise e] of the error monad
    [M]; a normal return is [OK a].

    Dictionaries.  [**kwargs] and [vars(args)] are finite maps from strings
    to dynamically typed values. *)

From stdpp Require Import base gmap strings list.
From Stdlib Require Import Reals Lra ZArith Ascii Floats.

Open Scope R_scope.

(* ===================================================================== *)
(** * Exceptions                                                          *)
(* ===================================================================== *)

Inductive exn : Set :=
| ValueError    (* unpacking or broadcasting arrays of the wrong shape *)
| IndexError    (* indexing past the end of a list or a string         *)
| NameError     (* reading a local variable that was never bound       *)
| TypeError     (* an option value of the wrong dynamic type           *)
| SystemExit.   (* argparse rejecting the command line                 *)

Inductive M (A : Type) : Type :=
| OK (a : A)
| Raise (e : exn).

Arguments OK {A} a.
Arguments Raise {A} e.

#[global] Instance M_ret : MRet M := fun A a => OK a.

#[global] Instance M_bind : MBind M := fun A B k m =>
  match m with
  | OK a => k a
  | Raise e => Raise e
  end.

(* ===================================================================== *)
(** * The numpy operations the program uses                               *)
(* ===================================================================== *)

Module np.

(** [np.square(a)]: the element-wise square. *)
Definition square (a : list R) : list R := map (fun x => x * x) a.

(** [np.sum(a)]: the sum of the elements, accumulated left to right. *)
Definition sum (a : list R) : R := fold_left Rplus a 0.

(** [np.log(x)] and [np.abs(x)] on scalars. *)
Definition log (x : R) : R := ln x.
Definition abs (x : R) : R := Rabs x.

(** [np.append(a, v)]: a new array, [a] followed by the scalar [v]. *)
Definition append (a : list R) (v : R) : list R := a ++ [v].

(** [k * a] for a scalar [k], [-a], and [a / k] for a scalar [k]. *)
Definition scale (k : R) (a : list R) : list R := map (fun x => k * x) a.
Definition neg (a : list R) : list R := map Ropp a.
Definition div (a : list R) (k : R) : list R := map (fun x => x / k) a.

(** [u + v] on one-dimensional arrays, with numpy's broadcasting: equal
    lengths add element-wise, a one-element array is stretched to the
    other's length, anything else is a [ValueError]. *)
Definition add (u v : list R) : M (list R) :=
  if Nat.eqb (length u) (length v) then OK (zip_with Rplus u v)
  else match u, v with
       | [a], _ => OK (map (fun y => a + y) v)
       | _, [d] => OK (map (fun x => x + d) u)
       | _, _ => Raise ValueError
       end.

(** [np.transpose(np.array(rows))] unpacked into four names: the four
    columns of a table whose rows all have four entries. *)
Definition column (i : nat) (rows : list (list R)) : list R :=
  map (fun r => nth i r 0) rows.

Definition columns4 (rows : list (list R))
  : M (list R * list R * list R * list R) :=
  match rows with
  | [] => Raise ValueError
  | _ => if forallb (fun r => Nat.eqb (length r) 4) rows
         then OK (column 0 rows, column 1 rows, column 2 rows, column 3 rows)
         else Raise ValueError
  end.

End np.

(** [x, y, z = a]: unpacking an array into exactly three names. *)
Definition unpack3 (a : list R) : M (R * R * R) :=
  match a with
  | [x; y; z] => OK (x, y, z)
  | _ => Raise ValueError
  end.

(** [l[i]] on a Python list. *)
Definition index (l : list R) (i : nat) : M R :=
  match l !! i with
  | Some x => OK x
  | None => Raise IndexError
  end.

(** [xrange(lo, hi)]: the integers [lo, lo+1, ..., hi-1]. *)
Definition xrange (lo hi : Z) : list Z :=
  map (fun i => (lo + Z.of_nat i)%Z) (seq 0 (Z.to_nat (hi - lo))).

(* ===================================================================== *)
(** * The methods of [OrbitIntegrator]                                    *)
(* ===================================================================== *)

Section Methods.

(** The attributes of [self] that the methods read; [__init__] sets them
    before it calls any method and nothing changes them afterwards. *)
Variables (dtime Rc b c : R).

(** POTENTIAL: compute gravitational potential of logarithmic model. *)
Definition _potential (pos : list R) : M R :=
  '(x, y, z) ← unpack3 pos;
  let mu2 := np.sum (np.square [Rc; x; y / b; z / c]) in
  OK (0.5 * np.log mu2).

(** ACCELERATION: compute gravitational acceleration of logarithmic
    model. *)
Definition _acceleration (pos : list R) : M (list R) :=
  '(x, y, z) ← unpack3 pos;
  let mu2 := np.sum (np.square [Rc; x; y / b; z / c]) in
  let acc := np.div (np.neg [x; y / (b ^ 2); z / (c ^ 2)]) mu2 in
  OK acc.

(** ENERGY: compute binding energy from phase-space coordinates. *)
Definition _energy (pos vel : list R) : M R :=
  p ← _potential pos;
  OK (0.5 * np.sum (np.square vel) + p).

(** LEAPSTEP: advance coordinates using leap-frog integrator. *)
Definition _leapstep (pos vel : list R) : M (list R * list R) :=
  acc ← _acceleration pos;                  (* starting acceleration *)
  vel ← np.add vel (np.scale (0.5 * dtime) acc);    (* half-step     *)
  pos ← np.add pos (np.scale dtime vel);            (* whole step    *)
  acc ← _acceleration pos;                  (* ending acceleration   *)
  vel ← np.add vel (np.scale (0.5 * dtime) acc);    (* complete step *)
  OK (pos, vel).

End Methods.

(* ===================================================================== *)
(** * The integration driver: [OrbitIntegrator.__init__]                  *)
(* ===================================================================== *)

(** What the program prints, one constructor per [print] statement, with
    the values each format string receives. *)
Inductive line : Type :=
| ViolationHeader                              (* "Energy conservation violated:"   *)
| ViolationDetail (Einit tnow Enow dE : R)     (* "  E(0) = .., E(..) = .., Delta E = .." *)
| RunCompleted (Einit tnow Enow : R).          (* "[ run completed : E(0) = .., E(..) = .. ]" *)

(** The object under construction, with the attributes [__init__] sets. *)
Module OrbitIntegrator.
Record t : Type := Build {
  dtime : R;
  Rc : R;
  b : R;
  c : R;
  vy : R;
  orbit : list (list R)
}.
End OrbitIntegrator.

(** The local variables of [__init__] that the loop reads and writes.
    [tnow] and [Enow] are unbound until the first iteration assigns them. *)
Record locals : Type := Locals {
  l_pos : list R;
  l_vel : list R;
  l_tnow : option R;
  l_Enow : option R;
  l_orbit : list (list R);      (* self.orbit *)
  l_stdout : list line
}.

Section Driver.

Variables (dtime Rc b c : R).      (* self.dtime, self.Rc, self.b, self.c *)
Variables (Einit detol : R).

(** The [for n in xrange(1, nstep+1)] loop, over the indices still to
    visit.  [break] returns without visiting the remaining indices. *)
Fixpoint loop (ns : list Z) (s : locals) : M locals :=
  match ns with
  | [] => OK s
  | n :: ns' =>
      '(pos, vel) ← _leapstep dtime Rc b c (l_pos s) (l_vel s);
      let tnow := dtime * IZR n in
      Enow ← _energy Rc b c pos vel;
      if Rgt_dec (np.abs (Einit - Enow)) detol
      then                                                   (* break *)
        OK (Locals pos vel (Some tnow) (Some Enow) (l_orbit s)
              (l_stdout s ++ [ViolationHeader;
                              ViolationDetail Einit tnow Enow (Einit - Enow)]))
      else
        loop ns' (Locals pos vel (Some tnow) (Some Enow)
                    (l_orbit s ++ [np.append pos tnow]) (l_stdout s))
  end.

End Driver.

(** The body of [__init__] once the options have been read: returns the
    constructed object and what was printed. *)
Definition construct (pos vel : list R) (nstep : Z)
    (dtime detol Rc b c : R) : M (OrbitIntegrator.t * list line) :=
  vy ← index vel 1;                                   (* self.vy = vel[1] *)
  Einit ← _energy Rc b c pos vel;
  let orbit := [np.append pos 0.0] in
  s ← loop dtime Rc b c Einit detol (xrange 1 (nstep + 1))
        (Locals pos vel None None orbit []);
  match l_tnow s, l_Enow s with
  | Some tnow, Some Enow =>
      OK (OrbitIntegrator.Build dtime Rc b c vy (l_orbit s),
          l_stdout s ++ [RunCompleted Einit tnow Enow])
  | _, _ => Raise NameError
  end.

(** Option values as Python passes them around. *)
Inductive value : Type :=
| VFloat (x : R)
| VInt (n : Z)
| VList (l : list R).

Definition as_float (v : value) : M R :=
  match v with
  | VFloat x => OK x
  | VInt n => OK (IZR n)
  | VList _ => Raise TypeError
  end.

Definition as_int (v : value) : M Z :=
  match v with
  | VInt n => OK n
  | _ => Raise TypeError
  end.

Definition as_list (v : value) : M (list R) :=
  match v with
  | VList l => OK l
  | _ => Raise TypeError
  end.

(** [kwargs.pop(key, default)]: the value and the dictionary without the
    key. *)
Definition pop (key : string) (dflt : value) (kwargs : gmap string value)
    : value * gmap string value :=
  (default dflt (kwargs !! key), delete key kwargs).

(** The constructor, called with keyword arguments collected in
    [kwargs]: every option is popped with its default. *)
Definition __init__ (kwargs : gmap string value)
    : M (OrbitIntegrator.t * list line) :=
  let '(pos, kwargs) := pop "pos" (VList [1.0; 0.0; 0.0]) kwargs in
  let '(vel, kwargs) := pop "vel" (VList [0.0; 0.4; 0.0]) kwargs in
  let '(nstep, kwargs) := pop "nstep" (VInt 25000) kwargs in
  let '(dtime, kwargs) := pop "dtime" (VFloat 0.01) kwargs in
  let '(detol, kwargs) := pop "detol" (VFloat 1.0e-3) kwargs in
  let '(Rc, kwargs) := pop "Rc" (VFloat 0.2) kwargs in
  let '(b, kwargs) := pop "b" (VFloat 0.9) kwargs in
  let '(c, kwargs) := pop "c" (VFloat 0.8) kwargs in
  pos ← as_list pos;
  vel ← as_list vel;
  nstep ← as_int nstep;
  dtime ← as_float dtime;
  detol ← as_float detol;
  Rc ← as_float Rc;
  b ← as_float b;
  c ← as_float c;
  construct pos vel nstep dtime detol Rc b c.

(* ===================================================================== *)
(** * The plotter: [OrbitIntegrator.plot]                                 *)
(* ===================================================================== *)

(** matplotlib's current figure, the process-wide state that the [plt]
    calls update: the curves drawn so far, each with its two data columns
    and its format string, the axis labels and the title. *)
Record Figure : Type := Fig {
  interactive : bool;
  curves : list (list R * list R * string);
  xlabel : string;
  ylabel : string;
  title : option (string * R)
}.

Module plt.

Definition ion (f : Figure) : Figure :=
  Fig true (curves f) (xlabel f) (ylabel f) (title f).

Definition clf (f : Figure) : Figure :=
  Fig (interactive f) [] "" "" None.

(** [plt.plot(u, v, fmt)] draws the curve at once and returns a handle
    to it, here its position among the figure's curves. *)
Definition plot (u v : list R) (fmt : string) (f : Figure) : nat * Figure :=
  (length (curves f),
   Fig (interactive f) (curves f ++ [(u, v, fmt)]) (xlabel f) (ylabel f)
     (title f)).

Definition set_xlabel (s : string) (f : Figure) : Figure :=
  Fig (interactive f) (curves f) s (ylabel f) (title f).

Definition set_ylabel (s : string) (f : Figure) : Figure :=
  Fig (interactive f) (curves f) (xlabel f) s (title f).

(** The title text is ["Initial y velocity = {0}"] formatted with [v]. *)
Definition set_title (text : string) (v : R) (f : Figure) : Figure :=
  Fig (interactive f) (curves f) (xlabel f) (ylabel f) (Some (text, v)).

End plt.

(** [s[i]] on a Python string: the one-character string at position [i]. *)
Definition str_index (s : string) (i : nat) : M string :=
  match String.get i s with
  | Some a => OK (String a EmptyString)
  | None => Raise IndexError
  end.

(** [orbit.plot(plane)].  The dictionary display evaluates its three
    values, hence the three [plt.plot] calls, before [.get(plane)] looks
    the key up; the handle that [.get] returns is discarded. *)
Definition plot (self : OrbitIntegrator.t) (plane : string) (fig : Figure)
    : M Figure :=
  let fig := plt.ion fig in
  let fig := plt.clf fig in
  let orbit := OrbitIntegrator.orbit self in
  '(x, y, z, t) ← np.columns4 orbit;
  let '(hXY, fig) := plt.plot x y "k-" fig in
  let '(hYZ, fig) := plt.plot y z "k-" fig in
  let '(hXZ, fig) := plt.plot x z "k-" fig in
  let table : gmap string nat :=
    <["XZ" := hXZ]> (<["YZ" := hYZ]> (<["XY" := hXY]> ∅)) in
  let _ := table !! plane in
  p0 ← str_index plane 0;
  let fig := plt.set_xlabel p0 fig in
  p1 ← str_index plane 1;
  let fig := plt.set_ylabel p1 fig in
  let fig :=
    plt.set_title "Initial y velocity = {0}" (OrbitIntegrator.vy self) fig in
  OK fig.

(* ===================================================================== *)
(** * The command line                                                    *)
(* ===================================================================== *)

(** One [parser.add_argument(flag, type=.., default=..)].  The command
    line is taken after argparse's conversion by [type] and [nargs]: a
    list of flags, each with its converted value. *)
Record argument : Type := Argument {
  option_string : string;
  arg_default : value
}.

Definition parser : list argument :=
  [ Argument "--pos" (VList [1.0; 0.0; 0.0]);
    Argument "--vel" (VList [0.0; 0.4; 0.0]);
    Argument "--nstep" (VInt 25000);
    Argument "--dtime" (VFloat 0.01);
    Argument "--detol" (VFloat 1.0e-3);
    Argument "-R" (VFloat 0.2);
    Argument "-b" (VFloat 0.9);
    Argument "-c" (VFloat 0.8) ].

(** argparse names the attribute of an optional argument after its option
    string with the leading dashes stripped. *)
Fixpoint lstrip_dash (s : string) : string :=
  match s with
  | String "-"%char s' => lstrip_dash s'
  | _ => s
  end.

Definition dest (a : argument) : string := lstrip_dash (option_string a).

(** The namespace holding every argument's default. *)
Definition defaults (p : list argument) : gmap string value :=
  foldr (fun a ns => <[dest a := arg_default a]> ns) ∅ p.

(** Each flag on the command line overwrites its argument's attribute; a
    flag the parser does not know ends the program. *)
Fixpoint parse (p : list argument) (cmdline : list (string * value))
    (ns : gmap string value) : M (gmap string value) :=
  match cmdline with
  | [] => OK ns
  | (flag, v) :: rest =>
      match find (fun a => String.eqb (option_string a) flag) p with
      | Some a => parse p rest (<[dest a := v]> ns)
      | None => Raise SystemExit
      end
  end.

(** [parser.parse_args()], as the dictionary [vars(args)]. *)
Definition parse_args (cmdline : list (string * value))
    : M (gmap string value) :=
  parse parser cmdline (defaults parser).

(** The script's entry point, up to the plot; saving the figure and the
    table to files is left out. *)
Definition main (cmdline : list (string * value)) (fig : Figure)
    : M (OrbitIntegrator.t * list line * Figure) :=
  args ← parse_args cmdline;
  '(orbit, out) ← __init__ args;
  fig ← plot orbit "XY" fig;
  OK (orbit, out, fig).

(* ===================================================================== *)
(** * The table writer: [OrbitIntegrator.write]                           *)
(* ===================================================================== *)

(** A line of the output file: literal text, or a data row with the four
    numbers its format string [" {0:11.6f} {1:11.6f} {2:11.6f} {3:11.6f}"]
    receives. *)
Inductive fline : Type :=
| Text (s : string)
| Row (x y z t : R).

Fixpoint spaces (n : nat) : string :=
  match n with
  | O => ""
  | S n' => String " " (spaces n')
  end.

(** The format [{:>11s}]: right-aligned in a field of the given width,
    never truncated. *)
Definition rjust (w : nat) (s : string) : string :=
  spaces (w - String.length s) +:+ s.

Definition newline : string := String "010" "".

(** The header line, ["#{0:>11s} {1:>11s} {2:>11s} {3:>11s}\n"] formatted
    with the four column names. *)
Definition header : string :=
  "#" +:+ rjust 11 "x" +:+ " " +:+ rjust 11 "y" +:+ " " +:+ rjust 11 "z"
  +:+ " " +:+ rjust 11 "time" +:+ newline.

(** [fmt.format( *coords )] with the positional fields 0 to 3: a sequence
    with fewer than four entries is an [IndexError], entries past the
    fourth are not used. *)
Definition format_row (coords : list R) : M fline :=
  match coords with
  | x :: y :: z :: t :: _ => OK (Row x y z t)
  | _ => Raise IndexError
  end.

(** What [write] needs of the file system: whether [open(path, 'w')]
    succeeds at a path, which the environment decides, and the lines of
    the files. *)
Record filesystem : Type := Files {
  writable : string -> bool;
  contents : gmap string (list fline)
}.

(** How a call on the file system ends: it returns, it raises one of the
    exceptions above, or [open] raises [IOError]. *)
Inductive outcome (A : Type) : Type :=
| Returned (a : A)
| Raised (e : exn)
| RaisedIOError.

Arguments Returned {A} a.
Arguments Raised {A} e.
Arguments RaisedIOError {A}.

(** [orbit.write(file)]: opening with mode ['w'] fails with [IOError] or
    replaces the file, which then receives the header and the rows. *)
Definition write (self : OrbitIntegrator.t) (file : string)
    (fs : filesystem) : outcome filesystem :=
  if writable fs file then
    match mapM format_row (OrbitIntegrator.orbit self) with
    | OK rows =>
        Returned (Files (writable fs)
                    (<[file := Text header :: rows]> (contents fs)))
    | Raise e => Raised e
    end
  else RaisedIOError.

(** ** The name of the output files *)

(** [s.replace(old, new)] for one-character [old] and [new]. *)
Fixpoint replace_char (old new : ascii) (s : string) : string :=
  match s with
  | EmptyString => EmptyString
  | String a s' =>
      String (if Ascii.eqb a old then new else a) (replace_char old new s')
  end.

(** ["RunOrbit/vy_{0}".format(text.replace('.', ','))], where [text] is
    [str(args.vel[1])]. *)
Definition fname (text : string) : string :=
  "RunOrbit/vy_" +:+ replace_char "." "," text.

(* ===================================================================== *)
(** * Definitions for the statements                                      *)
(* ===================================================================== *)

(** ** The potential model, in the specification's words *)

(** The quantity the specification calls [mu2], in the specification's
    words: [Rc² + x² + (y/b)² + (z/c)²]. *)
Definition mu2_spec (Rc b c x y z : R) : R :=
  Rc ^ 2 + x ^ 2 + (y / b) ^ 2 + (z / c) ^ 2.

(** The acceleration in the specification's words: the vector
    [-(x, y/b², z/c²) / mu2], component by component. *)
Definition acceleration_spec (Rc b c x y z : R) : list R :=
  [ - (x / mu2_spec Rc b c x y z);
    - (y / b ^ 2 / mu2_spec Rc b c x y z);
    - (z / c ^ 2 / mu2_spec Rc b c x y z) ].

(** ** The leapfrog scheme, in the specification's words *)

(** Vector sum and scalar multiple, for stating the scheme. *)
Definition vec_add (u v : list R) : list R := zip_with Rplus u v.
Definition vec_scale (k : R) (v : list R) : list R := map (Rmult k) v.

(** The acceleration as a total function on three-element positions. *)
Definition acc3 (Rc b c : R) (pos : list R) : list R :=
  match pos with
  | [x; y; z] => acceleration_spec Rc b c x y z
  | _ => []
  end.

Section Scheme.

Variables (dtime Rc b c : R).

(** The three stages of the scheme, in the specification's words. *)
Definition vel_half (pos vel : list R) : list R :=
  vec_add vel (vec_scale (0.5 * dtime) (acc3 Rc b c pos)).

Definition pos_new (pos vel : list R) : list R :=
  vec_add pos (vec_scale dtime (vel_half pos vel)).

Definition vel_new (pos vel : list R) : list R :=
  vec_add (vel_half pos vel)
    (vec_scale (0.5 * dtime) (acc3 Rc b c (pos_new pos vel))).

End Scheme.

(** ** Energy and runs *)

(** The energy as a total function on three-element positions. *)
Definition energy3 (Rc b c : R) (pos vel : list R) : R :=
  0.5 * np.sum (np.square vel)
  + match pos with
    | [x; y; z] => 0.5 * ln (mu2_spec Rc b c x y z)
    | _ => 0
    end.

(** The phase state after [k] leapfrog steps, the energy there and the
    sample recorded for it, all through the program's own functions. *)
Fixpoint steps (dtime Rc b c : R) (k : nat) (pos vel : list R)
    : M (list R * list R) :=
  match k with
  | O => OK (pos, vel)
  | S k' => '(p, v) ← steps dtime Rc b c k' pos vel; _leapstep dtime Rc b c p v
  end.

Definition energy_after (dtime Rc b c : R) (k : nat) (pos vel : list R)
    : M R :=
  '(p, v) ← steps dtime Rc b c k pos vel; _energy Rc b c p v.

Definition sample_after (dtime Rc b c : R) (pos vel : list R) (k : nat)
    : M (list R) :=
  '(p, _) ← steps dtime Rc b c k pos vel;
  OK (np.append p (dtime * IZR (Z.of_nat k))).

(** The samples of steps [0, 1, ..., k-1], in this order. *)
Definition samples (dtime Rc b c : R) (pos vel : list R) (k : nat)
    : M (list (list R)) :=
  mapM (sample_after dtime Rc b c pos vel) (seq 0 k).

(** The energy check of step [k] fails, respectively passes. *)
Definition violated (dtime detol Rc b c : R) (pos vel : list R) (k : nat)
    : Prop :=
  exists Einit Enow,
    _energy Rc b c pos vel = OK Einit /\
    energy_after dtime Rc b c k pos vel = OK Enow /\
    np.abs (Einit - Enow) > detol.

Definition accepted (dtime detol Rc b c : R) (pos vel : list R) (k : nat)
    : Prop :=
  exists Einit Enow,
    _energy Rc b c pos vel = OK Einit /\
    energy_after dtime Rc b c k pos vel = OK Enow /\
    ~ np.abs (Einit - Enow) > detol.

Section Iterates.

Variables (dtime Rc b c : R).
Variables (pos vel : list R).

(** Total counterparts of [steps], [energy_after] and [sample_after]. *)
Fixpoint iter (k : nat) : list R * list R :=
  match k with
  | O => (pos, vel)
  | S k' => (pos_new dtime Rc b c (iter k').1 (iter k').2,
             vel_new dtime Rc b c (iter k').1 (iter k').2)
  end.

Definition E (k : nat) : R := energy3 Rc b c (iter k).1 (iter k).2.
Definition T (k : nat) : R := dtime * IZR (Z.of_nat k).
Definition Smp (k : nat) : list R := np.append (iter k).1 (T k).

End Iterates.

(** ** Chains of squarings, for bounding a logarithm *)

(** The last element of a chain that starts at [a]. *)
Fixpoint final (a : R) (us : list R) : R :=
  match us with
  | [] => a
  | u :: us' => final u us'
  end.

(** Each element is at least the square of the one before. *)
Fixpoint squares_above (a : R) (us : list R) : Prop :=
  match us with
  | [] => True
  | u :: us' => a * a <= u /\ squares_above u us'
  end.

(** Each element is positive and at most the square of the one before. *)
Fixpoint squares_below (a : R) (us : list R) : Prop :=
  match us with
  | [] => True
  | u :: us' => 0 < u <= a * a /\ squares_below u us'
  end.

(** ** The quantity [mu2] in binary64

    [np.sum(np.square([self.Rc, x, y/self.b, z/self.c]))] with the
    operations of IEEE double precision, which is what the program runs
    on: each square, each quotient and each partial sum is rounded, and
    can underflow to zero or overflow to infinity. *)
Definition mu2_binary64 (Rc b c x y z : float) : float :=
  let square := fun a : float => (a * a)%float in
  ((((0 + square Rc) + square x) + square (y / b)) + square (z / c))%float.

(** ** Quantities for the further properties *)

(** The value of [_potential] at a position given by its coordinates. *)
Definition potential_value (Rc b c x y z : R) : R :=
  match _potential Rc b c [x; y; z] with
  | OK v => v
  | Raise _ => 0
  end.

(** The z-component of the angular momentum [pos x vel]. *)
Definition Lz (pos vel : list R) : R :=
  nth 0 pos 0 * nth 1 vel 0 - nth 1 pos 0 * nth 0 vel 0.

(** A string holds the character [a]. *)
Fixpoint occurs (a : ascii) (s : string) : bool :=
  match s with
  | EmptyString => false
  | String a' s' => Ascii.eqb a' a || occurs a s'
  end.

(* ===================================================================== *)
(** * The error monad                                                     *)
(* ===================================================================== *)

Lemma bind_OK {A B : Type} (a : A) (k : A -> M B) : OK a ≫= k = k a.
Proof. reflexivity. Qed.

Lemma bind_Raise {A B : Type} (e : exn) (k : A -> M B) :
  Raise e ≫= k = Raise e.
Proof. reflexivity. Qed.

Lemma bind_inv {A B : Type} (m : M A) (k : A -> M B) (r : B) :
  m ≫= k = OK r -> exists a, m = OK a /\ k a = OK r.
Proof. destruct m as [a|e]; simpl; [ eauto | discriminate ]. Qed.

(* ===================================================================== *)
(** * The potential model                                                 *)
(* ===================================================================== *)

Lemma sum_square4 (a0 a1 a2 a3 : R) :
  np.sum (np.square [a0; a1; a2; a3]) = a0 ^ 2 + a1 ^ 2 + a2 ^ 2 + a3 ^ 2.
Proof. unfold np.sum, np.square; simpl; ring. Qed.

Lemma sum_square3 (a0 a1 a2 : R) :
  np.sum (np.square [a0; a1; a2]) = a0 ^ 2 + a1 ^ 2 + a2 ^ 2.
Proof. unfold np.sum, np.square; simpl; ring. Qed.

Lemma code_mu2 (Rc b c x y z : R) :
  np.sum (np.square [Rc; x; y / b; z / c]) = mu2_spec Rc b c x y z.
Proof. rewrite sum_square4; reflexivity. Qed.

Lemma mu2_spec_pos (Rc b c x y z : R) : Rc <> 0 -> 0 < mu2_spec Rc b c x y z.
Proof.
  intros HRc; unfold mu2_spec.
  assert (0 < Rc ^ 2)
    by (rewrite <- Rsqr_pow2; apply Rsqr_pos_lt; exact HRc).
  pose proof (pow2_ge_0 x); pose proof (pow2_ge_0 (y / b));
  pose proof (pow2_ge_0 (z / c)); lra.
Qed.

Lemma length3_inv {A : Type} (l : list A) :
  length l = 3%nat -> exists x y z, l = [x; y; z].
Proof.
  destruct l as [|x [|y [|z [|w l]]]]; simpl; intros H; try discriminate.
  eauto.
Qed.

Lemma potential_eq (Rc b c x y z : R) :
  _potential Rc b c [x; y; z] = OK (0.5 * ln (mu2_spec Rc b c x y z)).
Proof.
  unfold _potential; cbn [unpack3 mbind M_bind]; rewrite code_mu2.
  reflexivity.
Qed.

Lemma acceleration_eq (Rc b c x y z : R) :
  _acceleration Rc b c [x; y; z] = OK (acceleration_spec Rc b c x y z).
Proof.
  unfold _acceleration, acceleration_spec; cbn [unpack3 mbind M_bind].
  rewrite code_mu2; unfold np.div, np.neg; simpl.
  do 2 f_equal; [ | f_equal; [ | f_equal ] ]; unfold Rdiv; ring.
Qed.

(** C2.  For every position [(x, y, z)] and parameters with [b <> 0] and
    [c <> 0], [_potential] returns [0.5 * ln mu2] and [_acceleration]
    returns the vector [-(x, y/b², z/c²) / mu2], where
    [mu2 = Rc² + x² + (y/b)² + (z/c)²].  Both are functions of the
    position and of [Rc], [b], [c] alone: they take no other argument and
    return nothing but their value. *)
Theorem potential_and_acceleration_formulas (Rc b c x y z : R) :
  b <> 0 -> c <> 0 ->
  _potential Rc b c [x; y; z] = OK (0.5 * ln (mu2_spec Rc b c x y z)) /\
  _acceleration Rc b c [x; y; z] = OK (acceleration_spec Rc b c x y z).
Proof.
  intros _ _; split; [ apply potential_eq | apply acceleration_eq ].
Qed.

Lemma potential_and_acceleration_formulas_witness :
  0.9 <> 0 /\ 0.8 <> 0 /\
  _potential 0.2 0.9 0.8 [1; 0; 0] = OK (0.5 * ln (mu2_spec 0.2 0.9 0.8 1 0 0)) /\
  _acceleration 0.2 0.9 0.8 [1; 0; 0] = OK (acceleration_spec 0.2 0.9 0.8 1 0 0).
Proof.
  split; [ lra | split; [ lra | ] ].
  apply (potential_and_acceleration_formulas 0.2 0.9 0.8 1 0 0); lra.
Defined.


#[local] Set Warnings "-inexact-float".


#[local] Set Warnings "inexact-float".


(* ===================================================================== *)
(** * The leapfrog stepper                                                *)
(* ===================================================================== *)

Lemma acceleration_acc3 (Rc b c : R) (pos : list R) :
  length pos = 3%nat -> _acceleration Rc b c pos = OK (acc3 Rc b c pos).
Proof.
  intros H; destruct (length3_inv pos H) as (x & y & z & ->).
  apply acceleration_eq.
Qed.

Lemma length_acc3 (Rc b c : R) (pos : list R) :
  length pos = 3%nat -> length (acc3 Rc b c pos) = 3%nat.
Proof.
  intros H; destruct (length3_inv pos H) as (x & y & z & ->); reflexivity.
Qed.

Lemma length_vec_scale (k : R) (v : list R) :
  length (vec_scale k v) = length v.
Proof. apply length_map. Qed.

Lemma length_vec_add (u v : list R) :
  length u = length v -> length (vec_add u v) = length u.
Proof.
  intros H; unfold vec_add; rewrite length_zip_with, <- H; apply Nat.min_id.
Qed.

Lemma add_same_length (u v : list R) :
  length u = length v -> np.add u v = OK (vec_add u v).
Proof.
  intros H; unfold np.add; rewrite H, Nat.eqb_refl; reflexivity.
Qed.

Section Leapstep.

Variables (dtime Rc b c : R).

Local Abbreviation vel_half := (vel_half dtime Rc b c).
Local Abbreviation pos_new := (pos_new dtime Rc b c).
Local Abbreviation vel_new := (vel_new dtime Rc b c).

Lemma length_vel_half (pos vel : list R) :
  length pos = 3%nat -> length vel = 3%nat ->
  length (vel_half pos vel) = 3%nat.
Proof.
  intros Hp Hv; unfold vel_half.
  rewrite length_vec_add; [ exact Hv | ].
  rewrite length_vec_scale, length_acc3; congruence.
Qed.

Lemma length_pos_new (pos vel : list R) :
  length pos = 3%nat -> length vel = 3%nat ->
  length (pos_new pos vel) = 3%nat.
Proof.
  intros Hp Hv; unfold pos_new.
  rewrite length_vec_add; [ exact Hp | ].
  rewrite length_vec_scale, length_vel_half; congruence.
Qed.

Lemma length_vel_new (pos vel : list R) :
  length pos = 3%nat -> length vel = 3%nat ->
  length (vel_new pos vel) = 3%nat.
Proof.
  intros Hp Hv; unfold vel_new.
  rewrite length_vec_add; [ apply length_vel_half; assumption | ].
  rewrite length_vec_scale, length_acc3, length_vel_half;
    auto using length_pos_new.
Qed.

Lemma leapstep_eq (pos vel : list R) :
  length pos = 3%nat -> length vel = 3%nat ->
  _leapstep dtime Rc b c pos vel = OK (pos_new pos vel, vel_new pos vel).
Proof.
  intros Hp Hv; unfold _leapstep; change np.scale with vec_scale.
  rewrite (acceleration_acc3 _ _ _ pos Hp), bind_OK.
  rewrite add_same_length
    by (rewrite length_vec_scale, length_acc3; congruence).
  rewrite bind_OK; fold (vel_half pos vel).
  rewrite add_same_length
    by (rewrite length_vec_scale, length_vel_half; congruence).
  rewrite bind_OK; fold (pos_new pos vel).
  rewrite (acceleration_acc3 _ _ _ (pos_new pos vel))
    by (apply length_pos_new; assumption).
  rewrite bind_OK.
  rewrite add_same_length
    by (rewrite length_vec_scale, length_acc3, length_vel_half;
        auto using length_pos_new).
  reflexivity.
Qed.

End Leapstep.

(** C1.  One leapfrog step on a position and a velocity (three-vectors)
    returns [(pos_new, vel_new)] of the kick-drift-kick scheme:
    [acc0 = acceleration(pos)], [vel_half = vel + 0.5*dtime*acc0],
    [pos_new = pos + dtime*vel_half] (the half-step velocity, not [vel]),
    [acc1 = acceleration(pos_new)], [vel_new = vel_half + 0.5*dtime*acc1].
    It holds for every [dtime], positive or not. *)
Theorem leapstep_kick_drift_kick (dtime Rc b c : R) (pos vel : list R) :
  length pos = 3%nat -> length vel = 3%nat ->
  exists acc0 vhalf pnew acc1 vnew,
    _acceleration Rc b c pos = OK acc0 /\
    vhalf = vec_add vel (vec_scale (0.5 * dtime) acc0) /\
    pnew = vec_add pos (vec_scale dtime vhalf) /\
    _acceleration Rc b c pnew = OK acc1 /\
    vnew = vec_add vhalf (vec_scale (0.5 * dtime) acc1) /\
    _leapstep dtime Rc b c pos vel = OK (pnew, vnew).
Proof.
  intros Hp Hv.
  exists (acc3 Rc b c pos), (vel_half dtime Rc b c pos vel),
    (pos_new dtime Rc b c pos vel),
    (acc3 Rc b c (pos_new dtime Rc b c pos vel)),
    (vel_new dtime Rc b c pos vel).
  split; [ apply acceleration_acc3; exact Hp | ].
  split; [ reflexivity | ].
  split; [ reflexivity | ].
  split; [ apply acceleration_acc3, length_pos_new; assumption | ].
  split; [ reflexivity | ].
  apply leapstep_eq; assumption.
Qed.

Lemma leapstep_kick_drift_kick_witness :
  exists acc0 vhalf pnew acc1 vnew,
    _acceleration 0.2 0.9 0.8 [1; 0; 0] = OK acc0 /\
    vhalf = vec_add [0; 0.4; 0] (vec_scale (0.5 * 0.01) acc0) /\
    pnew = vec_add [1; 0; 0] (vec_scale 0.01 vhalf) /\
    _acceleration 0.2 0.9 0.8 pnew = OK acc1 /\
    vnew = vec_add vhalf (vec_scale (0.5 * 0.01) acc1) /\
    _leapstep 0.01 0.2 0.9 0.8 [1; 0; 0] [0; 0.4; 0] = OK (pnew, vnew).
Proof.
  apply (leapstep_kick_drift_kick 0.01 0.2 0.9 0.8 [1; 0; 0] [0; 0.4; 0]);
    reflexivity.
Defined.

(** ** Time reversal *)

Lemma kick_back (k : R) (v a : list R) :
  length v = 3%nat -> length a = 3%nat ->
  vec_add (np.neg (vec_add v (vec_scale k a))) (vec_scale k a) = np.neg v.
Proof.
  intros Hv Ha.
  destruct (length3_inv v Hv) as (v0 & v1 & v2 & ->).
  destruct (length3_inv a Ha) as (a0 & a1 & a2 & ->).
  unfold vec_add, vec_scale, np.neg; simpl.
  f_equal; [ | f_equal; [ | f_equal ] ]; ring.
Qed.

Lemma drift_back (dt : R) (p v : list R) :
  length p = 3%nat -> length v = 3%nat ->
  vec_add (vec_add p (vec_scale dt v)) (vec_scale dt (np.neg v)) = p.
Proof.
  intros Hp Hv.
  destruct (length3_inv p Hp) as (p0 & p1 & p2 & ->).
  destruct (length3_inv v Hv) as (v0 & v1 & v2 & ->).
  unfold vec_add, vec_scale, np.neg; simpl.
  f_equal; [ | f_equal; [ | f_equal ] ]; ring.
Qed.

Lemma length_neg (v : list R) : length (np.neg v) = length v.
Proof. apply length_map. Qed.

Section Reversal.

Variables (dtime Rc b c : R).
Variables (pos vel : list R).
Hypothesis Hpos : length pos = 3%nat.
Hypothesis Hvel : length vel = 3%nat.

Let pos' := pos_new dtime Rc b c pos vel.
Let vel' := vel_new dtime Rc b c pos vel.

Lemma vel_half_reversed :
  vel_half dtime Rc b c pos' (np.neg vel')
  = np.neg (vel_half dtime Rc b c pos vel).
Proof using Hpos Hvel.
  unfold vel_half at 1; unfold vel', vel_new; fold pos'.
  apply kick_back; [ apply length_vel_half; assumption | ].
  apply length_acc3, length_pos_new; assumption.
Qed.

Lemma pos_new_reversed :
  pos_new dtime Rc b c pos' (np.neg vel') = pos.
Proof using Hpos Hvel.
  unfold pos_new at 1; rewrite vel_half_reversed.
  unfold pos', pos_new.
  apply drift_back; [ exact Hpos | apply length_vel_half; assumption ].
Qed.

Lemma vel_new_reversed :
  vel_new dtime Rc b c pos' (np.neg vel') = np.neg vel.
Proof using Hpos Hvel.
  unfold vel_new at 1; rewrite pos_new_reversed, vel_half_reversed.
  unfold vel_half.
  apply kick_back; [ exact Hvel | apply length_acc3; exact Hpos ].
Qed.

End Reversal.

(** C9.  The leapfrog step is time-reversible in exact arithmetic: if one
    step of size [dtime] maps [(pos, vel)] to [(pos', vel')], one step of
    the same size from [(pos', -vel')] returns exactly to the position
    [pos], with the velocity [-vel]. *)
Theorem leapstep_reversible (dtime Rc b c : R) (pos vel : list R) :
  length pos = 3%nat -> length vel = 3%nat ->
  exists pos' vel',
    _leapstep dtime Rc b c pos vel = OK (pos', vel') /\
    _leapstep dtime Rc b c pos' (np.neg vel') = OK (pos, np.neg vel).
Proof.
  intros Hp Hv.
  exists (pos_new dtime Rc b c pos vel), (vel_new dtime Rc b c pos vel).
  split; [ apply leapstep_eq; assumption | ].
  rewrite leapstep_eq
    by (try rewrite length_neg; auto using length_pos_new, length_vel_new).
  rewrite pos_new_reversed, vel_new_reversed by assumption.
  reflexivity.
Qed.

Lemma leapstep_reversible_witness :
  exists pos' vel',
    _leapstep 0.01 0.2 0.9 0.8 [1; 0; 0] [0; 0.4; 0] = OK (pos', vel') /\
    _leapstep 0.01 0.2 0.9 0.8 pos' (np.neg vel')
    = OK ([1; 0; 0], np.neg [0; 0.4; 0]).
Proof.
  apply (leapstep_reversible 0.01 0.2 0.9 0.8 [1; 0; 0] [0; 0.4; 0]);
    reflexivity.
Defined.

(* ===================================================================== *)
(** * The energy monitor                                                  *)
(* ===================================================================== *)

Lemma energy_energy3 (Rc b c : R) (pos vel : list R) :
  length pos = 3%nat -> _energy Rc b c pos vel = OK (energy3 Rc b c pos vel).
Proof.
  intros H; destruct (length3_inv pos H) as (x & y & z & ->).
  unfold _energy; rewrite potential_eq; reflexivity.
Qed.

(* ===================================================================== *)
(** * Runs of the driver                                                  *)
(* ===================================================================== *)

Lemma accepted_not_violated (dtime detol Rc b c : R) (pos vel : list R)
    (k : nat) :
  accepted dtime detol Rc b c pos vel k ->
  ~ violated dtime detol Rc b c pos vel k.
Proof.
  intros (E0 & Ek & H0 & Hk & Hacc) (E0' & Ek' & H0' & Hk' & Hviol).
  rewrite H0 in H0'; rewrite Hk in Hk'.
  injection H0' as <-; injection Hk' as <-; auto.
Qed.

Lemma xrange_steps (nstep : Z) :
  xrange 1 (nstep + 1) = map Z.of_nat (seq 1 (Z.to_nat nstep)).
Proof.
  unfold xrange; replace (nstep + 1 - 1)%Z with nstep by ring.
  rewrite <- List.seq_shift, List.map_map.
  apply List.map_ext; intros i.
  rewrite Nat2Z.inj_succ; ring.
Qed.

Section RunFacts.

Variables (dtime detol Rc b c : R).
Variables (pos vel : list R).
Hypothesis Hpos : length pos = 3%nat.
Hypothesis Hvel : length vel = 3%nat.

Local Abbreviation iter := (iter dtime Rc b c pos vel).
Local Abbreviation E := (E dtime Rc b c pos vel).
Local Abbreviation T := (T dtime).
Local Abbreviation Smp := (Smp dtime Rc b c pos vel).

Lemma length_iter (k : nat) :
  length (iter k).1 = 3%nat /\ length (iter k).2 = 3%nat.
Proof using Hpos Hvel.
  induction k as [|k [IHp IHv]]; simpl;
    auto using length_pos_new, length_vel_new.
Qed.

Lemma steps_iter (k : nat) : steps dtime Rc b c k pos vel = OK (iter k).
Proof using Hpos Hvel.
  induction k as [|k IH]; simpl; [ reflexivity | ].
  rewrite IH, bind_OK.
  destruct (length_iter k) as [Hp Hv].
  destruct (iter k) as [p v]; simpl in *.
  apply leapstep_eq; assumption.
Qed.

Lemma leapstep_iter (k : nat) :
  _leapstep dtime Rc b c (iter k).1 (iter k).2 = OK (iter (S k)).
Proof using Hpos Hvel.
  destruct (length_iter k) as [Hp Hv].
  rewrite leapstep_eq by assumption; reflexivity.
Qed.

Lemma energy_iter (k : nat) :
  _energy Rc b c (iter k).1 (iter k).2 = OK (E k).
Proof using Hpos Hvel.
  apply energy_energy3, length_iter.
Qed.

Lemma energy_after_E (k : nat) :
  energy_after dtime Rc b c k pos vel = OK (E k).
Proof using Hpos Hvel.
  unfold energy_after; rewrite steps_iter, bind_OK.
  pose proof (energy_iter k) as H.
  destruct (iter k) as [p v]; exact H.
Qed.

Lemma sample_after_Smp (k : nat) :
  sample_after dtime Rc b c pos vel k = OK (Smp k).
Proof using Hpos Hvel.
  unfold sample_after; rewrite steps_iter, bind_OK.
  unfold Smp, T; destruct (iter k) as [p v]; reflexivity.
Qed.

Lemma mapM_samples (l : list nat) :
  mapM (sample_after dtime Rc b c pos vel) l = OK (map Smp l).
Proof using Hpos Hvel.
  induction l as [|k l IH]; simpl; [ reflexivity | ].
  rewrite sample_after_Smp, bind_OK, IH; reflexivity.
Qed.

Lemma samples_Smp (k : nat) :
  samples dtime Rc b c pos vel k = OK (map Smp (seq 0 k)).
Proof using Hpos Hvel. apply mapM_samples. Qed.

Lemma violated_iff (k : nat) :
  violated dtime detol Rc b c pos vel k <-> Rabs (E 0 - E k) > detol.
Proof using Hpos Hvel.
  unfold violated; split.
  - intros (E0 & Ek & H0 & Hk & Hv).
    rewrite energy_after_E in Hk; injection Hk as <-.
    pose proof (energy_iter 0) as H0'; simpl in H0'.
    rewrite H0 in H0'; injection H0' as ->; exact Hv.
  - intros Hv; exists (E 0), (E k).
    split; [ exact (energy_iter 0) | ].
    split; [ apply energy_after_E | exact Hv ].
Qed.

Lemma accepted_iff (k : nat) :
  accepted dtime detol Rc b c pos vel k <-> ~ Rabs (E 0 - E k) > detol.
Proof using Hpos Hvel.
  unfold accepted; split.
  - intros (E0 & Ek & H0 & Hk & Hv).
    rewrite energy_after_E in Hk; injection Hk as <-.
    pose proof (energy_iter 0) as H0'; simpl in H0'.
    rewrite H0 in H0'; injection H0' as ->; exact Hv.
  - intros Hv; exists (E 0), (E k).
    split; [ exact (energy_iter 0) | ].
    split; [ apply energy_after_E | exact Hv ].
Qed.

Lemma accepted_or_violated (k : nat) :
  accepted dtime detol Rc b c pos vel k \/
  violated dtime detol Rc b c pos vel k.
Proof using Hpos Hvel.
  destruct (Rgt_dec (Rabs (E 0 - E k)) detol) as [Hv|Ha].
  - right; apply violated_iff; exact Hv.
  - left; apply accepted_iff; exact Ha.
Qed.

(** The loop body at index [S j], from the state after [j] steps. *)
Lemma loop_cons (j : nat) (ns : list Z) (t e : option R)
    (o : list (list R)) (out : list line) :
  loop dtime Rc b c (E 0) detol (Z.of_nat (S j) :: ns)
    (Locals (iter j).1 (iter j).2 t e o out)
  = if Rgt_dec (Rabs (E 0 - E (S j))) detol
    then OK (Locals (iter (S j)).1 (iter (S j)).2
               (Some (T (S j))) (Some (E (S j))) o
               (out ++ [ViolationHeader;
                        ViolationDetail (E 0) (T (S j)) (E (S j))
                          (E 0 - E (S j))]))
    else loop dtime Rc b c (E 0) detol ns
           (Locals (iter (S j)).1 (iter (S j)).2
              (Some (T (S j))) (Some (E (S j))) (o ++ [Smp (S j)]) out).
Proof using Hpos Hvel.
  cbn [loop l_pos l_vel l_orbit l_stdout].
  rewrite leapstep_iter, bind_OK.
  pose proof (energy_iter (S j)) as HE.
  unfold E, Smp, T in *.
  destruct (iter (S j)) as [p v]; cbn [fst snd] in *.
  rewrite HE, bind_OK; reflexivity.
Qed.

(** No violation in the next [m] steps: the loop runs through them. *)
Lemma loop_accept_all (m : nat) :
  forall (j : nat) (t e : option R) (o : list (list R)) (out : list line),
    (forall i, (j < i <= j + m)%nat -> ~ Rabs (E 0 - E i) > detol) ->
    loop dtime Rc b c (E 0) detol (map Z.of_nat (seq (S j) m))
      (Locals (iter j).1 (iter j).2 t e o out)
    = OK (Locals (iter (j + m)).1 (iter (j + m)).2
            (match m with O => t | S _ => Some (T (j + m)) end)
            (match m with O => e | S _ => Some (E (j + m)) end)
            (o ++ map Smp (seq (S j) m)) out).
Proof using Hpos Hvel.
  induction m as [|m IH]; intros j t e o out Hacc.
  - simpl; rewrite Nat.add_0_r, app_nil_r; reflexivity.
  - cbn [seq map]; rewrite loop_cons.
    destruct (Rgt_dec _ _) as [Hv|_];
      [ exfalso; apply (Hacc (S j)); [ lia | exact Hv ] | ].
    rewrite IH by (intros i Hi; apply Hacc; lia).
    replace (S j + m)%nat with (j + S m)%nat by lia.
    rewrite <- app_assoc; cbn [app].
    destruct m; [ rewrite Nat.add_1_r | ]; reflexivity.
Qed.

(** The first violation among the next [m] steps is at step [k]: the
    loop breaks there. *)
Lemma loop_abort (m : nat) :
  forall (j k : nat) (t e : option R) (o : list (list R))
      (out : list line),
    (j < k <= j + m)%nat ->
    (forall i, (j < i < k)%nat -> ~ Rabs (E 0 - E i) > detol) ->
    Rabs (E 0 - E k) > detol ->
    loop dtime Rc b c (E 0) detol (map Z.of_nat (seq (S j) m))
      (Locals (iter j).1 (iter j).2 t e o out)
    = OK (Locals (iter k).1 (iter k).2 (Some (T k)) (Some (E k))
            (o ++ map Smp (seq (S j) (k - S j)))
            (out ++ [ViolationHeader;
                     ViolationDetail (E 0) (T k) (E k) (E 0 - E k)])).
Proof using Hpos Hvel.
  induction m as [|m IH]; intros j k t e o out Hk Hacc Hviol; [ lia | ].
  cbn [seq map]; rewrite loop_cons.
  destruct (Nat.eq_dec k (S j)) as [->|Hne].
  - destruct (Rgt_dec _ _) as [_|Hn]; [ | contradiction ].
    rewrite Nat.sub_diag; simpl; rewrite app_nil_r; reflexivity.
  - destruct (Rgt_dec _ _) as [Hv|_];
      [ exfalso; apply (Hacc (S j)); [ lia | exact Hv ] | ].
    rewrite (IH (S j) k) by (try lia; try assumption; intros i Hi; apply Hacc; lia).
    replace (k - S j)%nat with (S (k - S (S j))) by lia.
    cbn [seq map]; rewrite <- app_assoc; reflexivity.
Qed.

End RunFacts.

Section ConstructFacts.

Variables (dtime detol Rc b c : R).
Variables (pos vel : list R) (nstep : Z).
Hypothesis Hpos : length pos = 3%nat.
Hypothesis Hvel : length vel = 3%nat.

Let En := E dtime Rc b c pos vel.
Let Tn := T dtime.
Let Sn := Smp dtime Rc b c pos vel.
Let viol (k : nat) : Prop := Rabs (En 0%nat - En k) > detol.

Lemma first_sample : np.append pos 0.0 = Sn 0%nat.
Proof using Type.
  unfold Sn, Smp, T; cbn [iter fst]; change (Z.of_nat 0) with 0%Z.
  replace (dtime * 0) with 0.0 by lra; reflexivity.
Qed.

(** Either no step up to [n] violates, or there is a first one. *)
Lemma first_violation (n : nat) :
  (forall i, (1 <= i <= n)%nat -> ~ viol i) \/
  (exists k, (1 <= k <= n)%nat /\ viol k /\
             forall i, (1 <= i < k)%nat -> ~ viol i).
Proof using Type.
  clear Hpos Hvel.
  induction n as [|n [IH|(k & Hk & Hv & Hlt)]].
  - left; intros i Hi; lia.
  - destruct (Rgt_dec (Rabs (En 0%nat - En (S n))) detol) as [Hv|Ha].
    + right; exists (S n); split; [ lia | split; [ exact Hv | ] ].
      intros i Hi; apply IH; lia.
    + left; intros i Hi.
      destruct (Nat.eq_dec i (S n)) as [->|Hne]; [ exact Ha | ].
      apply IH; lia.
  - right; exists k; split; [ lia | split; assumption ].
Qed.

Lemma construct_complete :
  (1 <= nstep)%Z ->
  (forall i, (1 <= i <= Z.to_nat nstep)%nat -> ~ viol i) ->
  construct pos vel nstep dtime detol Rc b c
  = OK (OrbitIntegrator.Build dtime Rc b c (nth 1 vel 0)
          (map Sn (seq 0 (S (Z.to_nat nstep)))),
        [RunCompleted (En 0%nat) (Tn (Z.to_nat nstep))
           (En (Z.to_nat nstep))]).
Proof using Hpos Hvel.
  intros Hn Hacc; unfold construct.
  destruct (length3_inv vel Hvel) as (v0 & v1 & v2 & Ev).
  replace (index vel 1) with (OK (nth 1 vel 0)) by (rewrite Ev; reflexivity).
  rewrite bind_OK.
  rewrite (energy_energy3 Rc b c pos vel Hpos), bind_OK.
  rewrite xrange_steps, first_sample.
  change (energy3 Rc b c pos vel) with (En 0%nat).
  change pos with (iter dtime Rc b c pos vel 0).1 at 1.
  change vel with (iter dtime Rc b c pos vel 0).2 at 1.
  rewrite (loop_accept_all dtime detol Rc b c pos vel Hpos Hvel)
    by (intros i Hi; apply Hacc; lia).
  rewrite bind_OK; cbn [l_tnow l_Enow l_orbit l_stdout].
  destruct (Z.to_nat nstep) as [|n] eqn:EN; [ lia | ].
  cbn [Nat.add app]; reflexivity.
Qed.

Lemma construct_abort (k : nat) :
  (1 <= k <= Z.to_nat nstep)%nat ->
  (forall i, (1 <= i < k)%nat -> ~ viol i) ->
  viol k ->
  construct pos vel nstep dtime detol Rc b c
  = OK (OrbitIntegrator.Build dtime Rc b c (nth 1 vel 0)
          (map Sn (seq 0 k)),
        [ViolationHeader;
         ViolationDetail (En 0%nat) (Tn k) (En k) (En 0%nat - En k);
         RunCompleted (En 0%nat) (Tn k) (En k)]).
Proof using Hpos Hvel.
  intros Hk Hacc Hviol; unfold construct.
  destruct (length3_inv vel Hvel) as (v0 & v1 & v2 & Ev).
  replace (index vel 1) with (OK (nth 1 vel 0)) by (rewrite Ev; reflexivity).
  rewrite bind_OK.
  rewrite (energy_energy3 Rc b c pos vel Hpos), bind_OK.
  rewrite xrange_steps, first_sample.
  change (energy3 Rc b c pos vel) with (En 0%nat).
  change pos with (iter dtime Rc b c pos vel 0).1 at 1.
  change vel with (iter dtime Rc b c pos vel 0).2 at 1.
  rewrite (loop_abort dtime detol Rc b c pos vel Hpos Hvel _ 0 k)
    by (try lia; try assumption; intros i Hi; apply Hacc; lia).
  rewrite bind_OK; cbn [l_tnow l_Enow l_orbit l_stdout app].
  destruct k as [|k']; [ lia | ].
  replace (S k' - 1)%nat with k' by lia.
  cbn [seq map]; reflexivity.
Qed.

End ConstructFacts.

Section Outcome.

Variables (dtime detol Rc b c : R).
Variables (pos vel : list R) (nstep : Z).
Hypothesis Hpos : length pos = 3%nat.
Hypothesis Hvel : length vel = 3%nat.
Hypothesis Hnstep : (1 <= nstep)%Z.

Let En := E dtime Rc b c pos vel.
Let Tn := T dtime.
Let Sn := Smp dtime Rc b c pos vel.
Let viol (k : nat) : Prop := Rabs (En 0%nat - En k) > detol.

(** Every run ends in one of two ways.  [k] is the last step whose
    energy was evaluated: the first violating step, or [nstep]. *)
Lemma construct_outcome :
  exists k : nat,
    (1 <= k <= Z.to_nat nstep)%nat /\
    (forall i, (1 <= i < k)%nat -> ~ viol i) /\
    ((viol k /\
      construct pos vel nstep dtime detol Rc b c
      = OK (OrbitIntegrator.Build dtime Rc b c (nth 1 vel 0)
              (map Sn (seq 0 k)),
            [ViolationHeader;
             ViolationDetail (En 0%nat) (Tn k) (En k) (En 0%nat - En k);
             RunCompleted (En 0%nat) (Tn k) (En k)]))
     \/
     (~ viol k /\ k = Z.to_nat nstep /\
      construct pos vel nstep dtime detol Rc b c
      = OK (OrbitIntegrator.Build dtime Rc b c (nth 1 vel 0)
              (map Sn (seq 0 (S k))),
            [RunCompleted (En 0%nat) (Tn k) (En k)]))).
Proof using Hpos Hvel Hnstep.
  destruct (first_violation dtime detol Rc b c pos vel (Z.to_nat nstep))
    as [Hall|(k & Hk & Hv & Hlt)].
  - exists (Z.to_nat nstep).
    split; [ lia | split; [ intros i Hi; apply Hall; lia | right ] ].
    split; [ apply Hall; lia | split; [ reflexivity | ] ].
    apply construct_complete; assumption.
  - exists k; split; [ exact Hk | split; [ exact Hlt | left ] ].
    split; [ exact Hv | apply construct_abort; assumption ].
Qed.

(** The outcome once the loop is known to reach step [n]. *)
Lemma construct_reaching (n : nat) :
  (1 <= n <= Z.to_nat nstep)%nat ->
  (forall i, (1 <= i < n)%nat -> ~ viol i) ->
  exists self out,
    construct pos vel nstep dtime detol Rc b c = OK (self, out) /\
    (viol n ->
       OrbitIntegrator.orbit self = map Sn (seq 0 n) /\
       out = [ViolationHeader;
              ViolationDetail (En 0%nat) (Tn n) (En n) (En 0%nat - En n);
              RunCompleted (En 0%nat) (Tn n) (En n)]) /\
    (~ viol n ->
       take (S n) (OrbitIntegrator.orbit self) = map Sn (seq 0 (S n)) /\
       ((n < Z.to_nat nstep)%nat ->
          exists m, (n < m)%nat /\
            last out = Some (RunCompleted (En 0%nat) (Tn m) (En m)))).
Proof using Hpos Hvel Hnstep.
  intros Hn Hacc.
  destruct construct_outcome as (k & Hk & Hlt & Hcase).
  assert (Hnk : (n <= k)%nat).
  { destruct (Nat.le_gt_cases n k) as [|Hgt]; [ assumption | exfalso ].
    destruct Hcase as [[Hv _]|(_ & -> & _)]; [ | lia ].
    apply (Hacc k); [ lia | exact Hv ]. }
  destruct Hcase as [[Hv Hrun]|(Ha & HkN & Hrun)];
    rewrite Hrun; eexists _, _; (split; [ reflexivity | ]);
    cbn [OrbitIntegrator.orbit]; split.
  - intros Hvn.
    assert (n = k) as ->; [ | split; reflexivity ].
    destruct (Nat.eq_dec n k) as [|Hne]; [ assumption | exfalso ].
    apply (Hlt n); [ lia | exact Hvn ].
  - intros Han.
    assert (Hlt' : (n < k)%nat).
    { destruct (Nat.eq_dec n k) as [->|]; [ contradiction | lia ]. }
    split.
    + rewrite <- fmap_take, take_seq; do 2 f_equal; lia.
    + intros _; exists k; split; [ exact Hlt' | reflexivity ].
  - intros Hvn; exfalso.
    destruct (Nat.eq_dec n k) as [->|Hne]; [ contradiction | ].
    apply (Hlt n); [ lia | exact Hvn ].
  - intros Han; split.
    + rewrite <- fmap_take, take_seq; do 2 f_equal; lia.
    + intros HnN; exists k; split; [ lia | reflexivity ].
Qed.

End Outcome.

(* ===================================================================== *)
(** * The driver's guard and the recorded trajectory                      *)
(* ===================================================================== *)

(** C4.  Let the loop reach step [n] of [1..nstep] (every earlier step
    passed the check), and let [Enow] be the energy after step [n] and
    [tnow = dtime * n].
    - If [|Einit - Enow| > detol], the run ends with the trajectory being
      exactly the samples of steps [0..n-1]: the sample of step [n] is not
      appended, no later step adds anything, the earlier samples are as
      they were; the output carries [Einit], [tnow], [Enow] and the
      deviation [Einit - Enow], and the closing report is about this same
      step.
    - Otherwise the sample of step [n], the new position with the time
      [dtime * n], follows the earlier ones in the trajectory, and if [n]
      is not the last step the loop goes on: the closing report is about
      a later step. *)
Theorem driver_energy_guard
    (pos vel : list R) (nstep : Z) (dtime detol Rc b c : R) (n : nat) :
  length pos = 3%nat -> length vel = 3%nat ->
  (1 <= n)%nat -> (Z.of_nat n <= nstep)%Z ->
  (forall i, (1 <= i < n)%nat -> accepted dtime detol Rc b c pos vel i) ->
  exists Einit pn vn Enow prev self out,
    _energy Rc b c pos vel = OK Einit /\
    steps dtime Rc b c n pos vel = OK (pn, vn) /\
    _energy Rc b c pn vn = OK Enow /\
    samples dtime Rc b c pos vel n = OK prev /\
    construct pos vel nstep dtime detol Rc b c = OK (self, out) /\
    let tnow := dtime * IZR (Z.of_nat n) in
    (np.abs (Einit - Enow) > detol ->
       OrbitIntegrator.orbit self = prev /\
       out = [ViolationHeader;
              ViolationDetail Einit tnow Enow (Einit - Enow);
              RunCompleted Einit tnow Enow]) /\
    (~ np.abs (Einit - Enow) > detol ->
       take (S n) (OrbitIntegrator.orbit self) = prev ++ [np.append pn tnow] /\
       ((Z.of_nat n < nstep)%Z ->
          exists m Em, (n < m)%nat /\
            last out
            = Some (RunCompleted Einit (dtime * IZR (Z.of_nat m)) Em))).
Proof.
  intros Hpos Hvel Hn1 Hn2 Hacc.
  destruct (construct_reaching dtime detol Rc b c pos vel nstep
              Hpos Hvel ltac:(lia) n ltac:(lia))
    as (self & out & Hrun & Hviol & Hok).
  { intros i Hi; apply (accepted_iff dtime detol Rc b c pos vel Hpos Hvel).
    apply Hacc; exact Hi. }
  exists (E dtime Rc b c pos vel 0),
    (iter dtime Rc b c pos vel n).1, (iter dtime Rc b c pos vel n).2,
    (E dtime Rc b c pos vel n),
    (map (Smp dtime Rc b c pos vel) (seq 0 n)), self, out.
  split; [ exact (energy_iter dtime Rc b c pos vel Hpos Hvel 0) | ].
  split; [ rewrite <- surjective_pairing; apply steps_iter; assumption | ].
  split; [ apply energy_iter; assumption | ].
  split; [ apply samples_Smp; assumption | ].
  split; [ exact Hrun | ].
  cbv zeta; split.
  - intros Hv; exact (Hviol Hv).
  - intros Ha; destruct (Hok Ha) as [Htake Hnext]; split.
    + rewrite Htake, seq_S, map_app; reflexivity.
    + intros Hlt; destruct Hnext as (m & Hm & Hlast); [ lia | ].
      exists m, (E dtime Rc b c pos vel m); split; assumption.
Qed.

(** C5.  For every run with [nstep > 0] the trajectory has one sample more
    than the number [a] of accepted steps: steps [1..a] passed the check
    and either [a = nstep] or step [a+1] failed it.  Hence a run in which
    no step fails has [nstep + 1] samples, and a run aborted at the check
    after [k] accepted steps has [k + 1]. *)
Theorem trajectory_length
    (pos vel : list R) (nstep : Z) (dtime detol Rc b c : R) :
  length pos = 3%nat -> length vel = 3%nat -> (0 < nstep)%Z ->
  exists self out,
    construct pos vel nstep dtime detol Rc b c = OK (self, out) /\
    (exists a : nat,
       length (OrbitIntegrator.orbit self) = (1 + a)%nat /\
       (forall i, (1 <= i <= a)%nat -> accepted dtime detol Rc b c pos vel i) /\
       (Z.of_nat a = nstep \/
        (Z.of_nat a < nstep)%Z /\
        violated dtime detol Rc b c pos vel (S a))) /\
    ((forall i, (1 <= i)%nat -> (Z.of_nat i <= nstep)%Z ->
                accepted dtime detol Rc b c pos vel i) ->
     Z.of_nat (length (OrbitIntegrator.orbit self)) = (nstep + 1)%Z) /\
    (forall k : nat,
       (Z.of_nat k < nstep)%Z ->
       (forall i, (1 <= i <= k)%nat -> accepted dtime detol Rc b c pos vel i) ->
       violated dtime detol Rc b c pos vel (S k) ->
       length (OrbitIntegrator.orbit self) = (k + 1)%nat).
Proof.
  intros Hpos Hvel Hn.
  pose proof (accepted_iff dtime detol Rc b c pos vel Hpos Hvel) as Hai.
  pose proof (violated_iff dtime detol Rc b c pos vel Hpos Hvel) as Hvi.
  destruct (construct_outcome dtime detol Rc b c pos vel nstep
              Hpos Hvel ltac:(lia))
    as (k & Hk & Hlt & [[Hv Hrun]|(Ha & HkN & Hrun)]);
    rewrite Hrun; eexists _, _; (split; [ reflexivity | ]);
    cbn [OrbitIntegrator.orbit]; rewrite length_map, length_seq.
  - (* aborted at step k: k - 1 accepted steps *)
    split; [ | split ].
    + exists (k - 1)%nat; split; [ lia | split ].
      * intros i Hi; apply Hai, Hlt; lia.
      * right; split; [ lia | ].
        replace (S (k - 1)) with k by lia; apply Hvi; exact Hv.
    + intros Hall; exfalso.
      assert (Hak : accepted dtime detol Rc b c pos vel k)
        by (apply Hall; lia).
      apply Hai in Hak; contradiction.
    + intros j Hj Hacc Hvj.
      destruct (Nat.lt_trichotomy (S j) k) as [Hlt'|[Heq|Hgt]]; [ | lia | ].
      * exfalso; apply (Hlt (S j)); [ lia | apply Hvi; exact Hvj ].
      * exfalso.
        assert (Hak : accepted dtime detol Rc b c pos vel k)
          by (apply Hacc; lia).
        apply Hai in Hak; contradiction.
  - (* completed: nstep accepted steps *)
    split; [ | split ].
    + exists k; split; [ lia | split ].
      * intros i Hi.
        destruct (Nat.eq_dec i k) as [->|Hne]; apply Hai;
          [ exact Ha | apply Hlt; lia ].
      * left; lia.
    + intros _; lia.
    + intros j Hj Hacc Hvj; exfalso.
      apply Hvi in Hvj.
      destruct (Nat.eq_dec (S j) k) as [Heq|Hne];
        [ rewrite Heq in Hvj; contradiction | ].
      apply (Hlt (S j)); [ lia | exact Hvj ].
Qed.

(** Every run records the samples of steps [0 .. K-1] for some [K >= 1]. *)
Lemma construct_samples
    (pos vel : list R) (nstep : Z) (dtime detol Rc b c : R) :
  length pos = 3%nat -> length vel = 3%nat -> (0 < nstep)%Z ->
  exists self out K,
    construct pos vel nstep dtime detol Rc b c = OK (self, out) /\
    (1 <= K)%nat /\
    OrbitIntegrator.orbit self = map (Smp dtime Rc b c pos vel) (seq 0 K).
Proof.
  intros Hpos Hvel Hn.
  destruct (construct_outcome dtime detol Rc b c pos vel nstep
              Hpos Hvel ltac:(lia))
    as (k & Hk & _ & [[_ Hrun]|(_ & _ & Hrun)]); rewrite Hrun.
  - eexists _, _, k; split; [ reflexivity | split; [ lia | reflexivity ] ].
  - eexists _, _, (S k); split; [ reflexivity | split; [ lia | reflexivity ] ].
Qed.

(** C6, as amended.  Every recorded trajectory sample is the position
    after some number [j] of steps, a three-vector, followed by the
    simulation time [dtime * j]: a four-vector [(x, y, z, t)].  The
    velocity is not part of it.  The first sample has [t = 0] and holds
    the initial position. *)
Theorem trajectory_samples
    (pos vel : list R) (nstep : Z) (dtime detol Rc b c : R) :
  length pos = 3%nat -> length vel = 3%nat -> (0 < nstep)%Z ->
  exists self out,
    construct pos vel nstep dtime detol Rc b c = OK (self, out) /\
    OrbitIntegrator.orbit self !! 0%nat = Some (pos ++ [0]) /\
    forall (j : nat) (s : list R),
      OrbitIntegrator.orbit self !! j = Some s ->
      exists x y z v,
        steps dtime Rc b c j pos vel = OK ([x; y; z], v) /\
        s = [x; y; z; dtime * IZR (Z.of_nat j)].
Proof.
  intros Hpos Hvel Hn.
  destruct (construct_samples pos vel nstep dtime detol Rc b c Hpos Hvel Hn)
    as (self & out & K & Hrun & HK & Horbit).
  exists self, out; split; [ exact Hrun | ].
  rewrite Horbit; split.
  - destruct K as [|K]; [ lia | ]; cbn [seq map lookup list_lookup].
    unfold Smp, T, np.append; cbn [iter fst]; change (Z.of_nat 0) with 0%Z.
    do 3 f_equal; lra.
  - intros j s Hs.
    rewrite list_lookup_fmap in Hs.
    destruct (seq 0 K !! j) as [i|] eqn:Hi; [ | discriminate ].
    apply lookup_seq in Hi as [-> _]; cbn [Nat.add] in Hs.
    injection Hs as <-.
    destruct (length_iter dtime Rc b c pos vel Hpos Hvel j) as [Hp _].
    destruct (length3_inv _ Hp) as (x & y & z & Exyz).
    exists x, y, z, (iter dtime Rc b c pos vel j).2; split.
    + rewrite <- Exyz, <- surjective_pairing; apply steps_iter; assumption.
    + unfold Smp, T; rewrite Exyz; reflexivity.
Qed.

(** ** Concrete runs *)

(** A particle at rest at the centre of the potential stays there. *)
Lemma rest_iter (dtime Rc b c : R) (k : nat) :
  iter dtime Rc b c [0; 0; 0] [0; 0; 0] k = ([0; 0; 0], [0; 0; 0]).
Proof.
  induction k as [|k IH]; [ reflexivity | ].
  cbn [iter]; rewrite IH; cbn [fst snd].
  assert (Hp : pos_new dtime Rc b c [0; 0; 0] [0; 0; 0] = [0; 0; 0]).
  { unfold pos_new, vel_half, vec_add, vec_scale, acc3, acceleration_spec.
    simpl; unfold Rdiv.
    f_equal; [ | f_equal; [ | f_equal ] ]; ring. }
  unfold vel_new; rewrite Hp.
  unfold vel_half, vec_add, vec_scale, acc3, acceleration_spec.
  simpl; unfold Rdiv.
  do 2 f_equal; [ | f_equal; [ | f_equal ] ]; ring.
Qed.

Lemma rest_accepted (dtime detol Rc b c : R) (k : nat) :
  0 <= detol -> accepted dtime detol Rc b c [0; 0; 0] [0; 0; 0] k.
Proof.
  intros Hd.
  apply (accepted_iff dtime detol Rc b c [0; 0; 0] [0; 0; 0]);
    [ reflexivity | reflexivity | ].
  unfold E; rewrite !rest_iter; cbn [fst snd].
  replace (energy3 Rc b c [0; 0; 0] [0; 0; 0]
           - energy3 Rc b c [0; 0; 0] [0; 0; 0]) with 0 by ring.
  rewrite Rabs_pos_eq by lra; lra.
Qed.

Lemma driver_energy_guard_witness :
  exists Einit pn vn Enow prev self out,
    _energy 0.2 0.9 0.8 [0; 0; 0] [0; 0; 0] = OK Einit /\
    steps 0.01 0.2 0.9 0.8 2 [0; 0; 0] [0; 0; 0] = OK (pn, vn) /\
    _energy 0.2 0.9 0.8 pn vn = OK Enow /\
    samples 0.01 0.2 0.9 0.8 [0; 0; 0] [0; 0; 0] 2 = OK prev /\
    construct [0; 0; 0] [0; 0; 0] 3 0.01 0.001 0.2 0.9 0.8 = OK (self, out) /\
    let tnow := 0.01 * IZR (Z.of_nat 2) in
    (np.abs (Einit - Enow) > 0.001 ->
       OrbitIntegrator.orbit self = prev /\
       out = [ViolationHeader;
              ViolationDetail Einit tnow Enow (Einit - Enow);
              RunCompleted Einit tnow Enow]) /\
    (~ np.abs (Einit - Enow) > 0.001 ->
       take 3 (OrbitIntegrator.orbit self) = prev ++ [np.append pn tnow] /\
       ((Z.of_nat 2 < 3)%Z ->
          exists m Em, (2 < m)%nat /\
            last out
            = Some (RunCompleted Einit (0.01 * IZR (Z.of_nat m)) Em))).
Proof.
  apply (driver_energy_guard [0; 0; 0] [0; 0; 0] 3 0.01 0.001 0.2 0.9 0.8 2);
    [ reflexivity | reflexivity | lia | lia | ].
  intros i _; apply rest_accepted; lra.
Defined.

Lemma trajectory_length_witness :
  exists self out,
    construct [1; 0; 0] [0; 0.4; 0] 25000 0.01 0.001 0.2 0.9 0.8
    = OK (self, out) /\
    (exists a : nat,
       length (OrbitIntegrator.orbit self) = (1 + a)%nat /\
       (forall i, (1 <= i <= a)%nat ->
          accepted 0.01 0.001 0.2 0.9 0.8 [1; 0; 0] [0; 0.4; 0] i) /\
       (Z.of_nat a = 25000%Z \/
        (Z.of_nat a < 25000)%Z /\
        violated 0.01 0.001 0.2 0.9 0.8 [1; 0; 0] [0; 0.4; 0] (S a))) /\
    ((forall i, (1 <= i)%nat -> (Z.of_nat i <= 25000)%Z ->
                accepted 0.01 0.001 0.2 0.9 0.8 [1; 0; 0] [0; 0.4; 0] i) ->
     Z.of_nat (length (OrbitIntegrator.orbit self)) = (25000 + 1)%Z) /\
    (forall k : nat,
       (Z.of_nat k < 25000)%Z ->
       (forall i, (1 <= i <= k)%nat ->
          accepted 0.01 0.001 0.2 0.9 0.8 [1; 0; 0] [0; 0.4; 0] i) ->
       violated 0.01 0.001 0.2 0.9 0.8 [1; 0; 0] [0; 0.4; 0] (S k) ->
       length (OrbitIntegrator.orbit self) = (k + 1)%nat).
Proof.
  apply (trajectory_length [1; 0; 0] [0; 0.4; 0] 25000
           0.01 0.001 0.2 0.9 0.8);
    [ reflexivity | reflexivity | lia ].
Defined.

Lemma trajectory_samples_witness :
  exists self out,
    construct [1; 0; 0] [0; 0.4; 0] 25000 0.01 0.001 0.2 0.9 0.8
    = OK (self, out) /\
    OrbitIntegrator.orbit self !! 0%nat = Some ([1; 0; 0] ++ [0]) /\
    forall (j : nat) (s : list R),
      OrbitIntegrator.orbit self !! j = Some s ->
      exists x y z v,
        steps 0.01 0.2 0.9 0.8 j [1; 0; 0] [0; 0.4; 0] = OK ([x; y; z], v) /\
        s = [x; y; z; 0.01 * IZR (Z.of_nat j)].
Proof.
  apply (trajectory_samples [1; 0; 0] [0; 0.4; 0] 25000
           0.01 0.001 0.2 0.9 0.8);
    [ reflexivity | reflexivity | lia ].
Defined.

(** What every successful construction has set, whichever way the loop
    ended: the attributes, the first sample, and the closing report with
    the initial energy. *)
Lemma construct_result
    (pos vel : list R) (nstep : Z) (dtime detol Rc b c : R) :
  length pos = 3%nat -> length vel = 3%nat -> (0 < nstep)%Z ->
  exists self out K tnow Enow,
    construct pos vel nstep dtime detol Rc b c = OK (self, out) /\
    OrbitIntegrator.dtime self = dtime /\
    OrbitIntegrator.Rc self = Rc /\
    OrbitIntegrator.b self = b /\
    OrbitIntegrator.c self = c /\
    Some (OrbitIntegrator.vy self) = vel !! 1%nat /\
    (1 <= K)%nat /\
    OrbitIntegrator.orbit self = map (Smp dtime Rc b c pos vel) (seq 0 K) /\
    last out = Some (RunCompleted (energy3 Rc b c pos vel) tnow Enow).
Proof.
  intros Hpos Hvel Hn.
  assert (Hvy : Some (nth 1 vel 0) = vel !! 1%nat).
  { destruct (length3_inv vel Hvel) as (v0 & v1 & v2 & ->); reflexivity. }
  destruct (construct_outcome dtime detol Rc b c pos vel nstep
              Hpos Hvel ltac:(lia))
    as (k & Hk & _ & [[_ Hrun]|(_ & _ & Hrun)]); rewrite Hrun.
  - eexists _, _, k, _, _; split; [ reflexivity | ].
    repeat (split; [ first [ reflexivity | exact Hvy | lia ] | ]).
    reflexivity.
  - eexists _, _, (S k), _, _; split; [ reflexivity | ].
    repeat (split; [ first [ reflexivity | exact Hvy | lia ] | ]).
    reflexivity.
Qed.

Lemma Smp_0 (dtime Rc b c : R) (pos vel : list R) :
  Smp dtime Rc b c pos vel 0 = pos ++ [0].
Proof.
  unfold Smp, T, np.append; cbn [iter fst]; change (Z.of_nat 0) with 0%Z.
  do 2 f_equal; lra.
Qed.

(** C6, the counterexample.  Two runs from the position [(1, 0, 0)] with
    different initial velocities, [(0, 0.4, 0)] (the default) and
    [(0, 0.5, 0)], record the same first sample [(1, 0, 0, 0)]: the
    position and the time, with no entry for the velocity. *)
Lemma first_sample_omits_velocity :
  [0; 0.4; 0] <> [0; 0.5; 0] /\
  exists self1 out1 self2 out2,
    construct [1; 0; 0] [0; 0.4; 0] 25000 0.01 0.001 0.2 0.9 0.8
    = OK (self1, out1) /\
    construct [1; 0; 0] [0; 0.5; 0] 25000 0.01 0.001 0.2 0.9 0.8
    = OK (self2, out2) /\
    OrbitIntegrator.orbit self1 !! 0%nat = Some [1; 0; 0; 0] /\
    OrbitIntegrator.orbit self2 !! 0%nat = Some [1; 0; 0; 0].
Proof.
  split; [ intros H; injection H; lra | ].
  destruct (construct_result [1; 0; 0] [0; 0.4; 0] 25000
              0.01 0.001 0.2 0.9 0.8) as
    (self1 & out1 & K1 & t1 & e1 & H1 & _ & _ & _ & _ & _ & HK1 & Ho1 & _);
    [ reflexivity | reflexivity | lia | ].
  destruct (construct_result [1; 0; 0] [0; 0.5; 0] 25000
              0.01 0.001 0.2 0.9 0.8) as
    (self2 & out2 & K2 & t2 & e2 & H2 & _ & _ & _ & _ & _ & HK2 & Ho2 & _);
    [ reflexivity | reflexivity | lia | ].
  exists self1, out1, self2, out2.
  split; [ exact H1 | split; [ exact H2 | ] ].
  rewrite Ho1, Ho2.
  destruct K1 as [|K1]; [ lia | ]; destruct K2 as [|K2]; [ lia | ].
  cbn [seq map lookup list_lookup]; rewrite !Smp_0; split; reflexivity.
Qed.

(* ===================================================================== *)
(** * The initial energy of the default configuration                     *)
(* ===================================================================== *)

(** ** Rational bounds on a logarithm

    From [1 + x <= exp x]: [1 - 1/y <= ln y <= y - 1].  Squaring a number
    doubles its logarithm, so a chain of rational squarings turns these
    two bounds at a number close to [1] into tight bounds further away. *)

Lemma ln_le (x y : R) : 0 < x -> x <= y -> ln x <= ln y.
Proof.
  intros Hx [Hlt | ->]; [ left; apply ln_increasing; assumption | right ].
  reflexivity.
Qed.

Lemma ln_le_minus_1 (y : R) : 0 < y -> ln y <= y - 1.
Proof.
  intros Hy.
  rewrite <- (ln_exp (y - 1)).
  apply ln_le; [ exact Hy | ].
  pose proof (exp_ineq1_le (y - 1)); lra.
Qed.

Lemma ln_ge_1_minus_inv (y : R) : 0 < y -> 1 - / y <= ln y.
Proof.
  intros Hy.
  assert (Hinv : 0 < / y) by (apply Rinv_0_lt_compat; exact Hy).
  pose proof (ln_le_minus_1 (/ y) Hinv) as H.
  rewrite ln_Rinv in H by exact Hy; lra.
Qed.

Lemma ln_square (a : R) : 0 < a -> ln (a * a) = 2 * ln a.
Proof. intros Ha; rewrite ln_mult by exact Ha; ring. Qed.

Lemma ln_squares_above (us : list R) :
  forall a, 0 < a -> squares_above a us ->
    2 ^ length us * ln a <= ln (final a us).
Proof.
  induction us as [|u us IH]; intros a Ha Hsq; simpl in *; [ lra | ].
  destruct Hsq as [Hau Hsq].
  assert (Haa : 0 < a * a) by (apply Rmult_lt_0_compat; exact Ha).
  assert (Hu : 0 < u) by lra.
  specialize (IH u Hu Hsq).
  assert (Hln : 2 * ln a <= ln u)
    by (rewrite <- ln_square by exact Ha; apply ln_le; assumption).
  assert (Hpow : 0 <= 2 ^ length us) by (apply pow_le; lra).
  nra.
Qed.

Lemma ln_squares_below (us : list R) :
  forall a, 0 < a -> squares_below a us ->
    ln (final a us) <= 2 ^ length us * ln a.
Proof.
  induction us as [|u us IH]; intros a Ha Hsq; simpl in *; [ lra | ].
  destruct Hsq as [[Hu Hua] Hsq].
  specialize (IH u Hu Hsq).
  assert (Hln : ln u <= 2 * ln a)
    by (rewrite <- ln_square by exact Ha; apply ln_le; assumption).
  assert (Hpow : 0 <= 2 ^ length us) by (apply pow_le; lra).
  nra.
Qed.

Lemma ln_104_lower : 0.03922 < ln 1.04.
Proof.
  pose (r := 1.000009575342).
  pose (chain :=
    [ 1.000019150775688; 1.000038301918129; 1.000076605303295;
      1.000153216474963; 1.000306456425215; 1.000613006765971;
      1.001226389309238; 1.002454282649214; 1.004914588801751;
      1.009853330786593; 1.019803749700777; 1.039999687903766 ]).
  assert (Hr : 0 < r) by (unfold r; lra).
  assert (Hsq : squares_above r chain)
    by (unfold r, chain; simpl; repeat split; lra).
  pose proof (ln_squares_above chain r Hr Hsq) as Hchain.
  assert (Hfin : ln (final r chain) <= ln 1.04)
    by (apply ln_le; unfold chain; simpl; lra).
  pose proof (ln_ge_1_minus_inv r Hr) as Hlow.
  assert (Hnum : 0.03922 < 2 ^ length chain * (1 - / r))
    by (unfold r, chain; simpl; lra).
  assert (Hpow : 0 < 2 ^ length chain) by (apply pow_lt; lra).
  nra.
Qed.

Lemma ln_104_upper : ln 1.04 < 0.03923.
Proof.
  pose (r := 1.000306484375).
  pose (chain :=
    [ 1.000613062682672; 1.001226501211196; 1.002454506727613;
      1.004915038058501; 1.009854233716118; 1.019805573354367;
      1.040003407444629 ]).
  assert (Hr : 0 < r) by (unfold r; lra).
  assert (Hsq : squares_below r chain)
    by (unfold r, chain; simpl; repeat split; lra).
  pose proof (ln_squares_below chain r Hr Hsq) as Hchain.
  assert (Hfin : ln 1.04 < ln (final r chain))
    by (apply ln_increasing; unfold chain; simpl; lra).
  pose proof (ln_le_minus_1 r Hr) as Hup.
  assert (Hnum : 2 ^ length chain * (r - 1) <= 0.03923)
    by (unfold r, chain; simpl; lra).
  assert (Hpow : 0 < 2 ^ length chain) by (apply pow_lt; lra).
  nra.
Qed.

(** The constructor with every option resolved against the dictionary:
    popping one key does not disturb the lookup of another. *)
Lemma init_unfold (kwargs : gmap string value) :
  __init__ kwargs
  = (pos ← as_list (default (VList [1.0; 0.0; 0.0]) (kwargs !! "pos"));
     vel ← as_list (default (VList [0.0; 0.4; 0.0]) (kwargs !! "vel"));
     nstep ← as_int (default (VInt 25000) (kwargs !! "nstep"));
     dtime ← as_float (default (VFloat 0.01) (kwargs !! "dtime"));
     detol ← as_float (default (VFloat 1.0e-3) (kwargs !! "detol"));
     Rc ← as_float (default (VFloat 0.2) (kwargs !! "Rc"));
     b ← as_float (default (VFloat 0.9) (kwargs !! "b"));
     c ← as_float (default (VFloat 0.8) (kwargs !! "c"));
     construct pos vel nstep dtime detol Rc b c).
Proof.
  unfold __init__, pop; cbn beta iota.
  rewrite !lookup_delete_ne by done; reflexivity.
Qed.

(** With no option given, the constructor runs the default
    configuration. *)
Lemma init_defaults :
  __init__ ∅
  = construct [1.0; 0.0; 0.0] [0.0; 0.4; 0.0] 25000 0.01 1.0e-3 0.2 0.9 0.8.
Proof. rewrite init_unfold, !lookup_empty; reflexivity. Qed.

Lemma default_energy :
  energy3 0.2 0.9 0.8 [1.0; 0.0; 0.0] [0.0; 0.4; 0.0] = 0.08 + 0.5 * ln 1.04.
Proof.
  unfold energy3; rewrite sum_square3.
  replace (mu2_spec 0.2 0.9 0.8 1.0 0.0 0.0) with 1.04
    by (unfold mu2_spec; lra).
  lra.
Qed.

(** C3.  The energy monitor returns [0.5*(vx²+vy²+vz²) + potential(pos)].
    For the default configuration, position [(1, 0, 0)], velocity
    [(0, 0.4, 0)], [Rc = 0.2], [b = 0.9], [c = 0.8], it returns
    [0.08 + 0.5 * ln 1.04], and this is the initial energy that a run
    with no option given reports.  The value lies strictly between
    [0.09961] and [0.099615]; it is within [0.00001] of the [0.09962]
    quoted for it. *)
Theorem energy_formula :
  (forall Rc b c x y z vx vy vz : R,
     exists p,
       _potential Rc b c [x; y; z] = OK p /\
       _energy Rc b c [x; y; z] [vx; vy; vz]
       = OK (0.5 * (vx ^ 2 + vy ^ 2 + vz ^ 2) + p)) /\
  _energy 0.2 0.9 0.8 [1.0; 0.0; 0.0] [0.0; 0.4; 0.0]
  = OK (0.08 + 0.5 * ln 1.04) /\
  (exists self out tnow Enow,
     __init__ ∅ = OK (self, out) /\
     last out = Some (RunCompleted (0.08 + 0.5 * ln 1.04) tnow Enow)) /\
  0.09961 < 0.08 + 0.5 * ln 1.04 < 0.099615 /\
  Rabs (0.08 + 0.5 * ln 1.04 - 0.09962) < 0.00001.
Proof.
  split; [ | split; [ | split; [ | split ] ] ].
  - intros Rc b c x y z vx vy vz.
    exists (0.5 * ln (mu2_spec Rc b c x y z)).
    split; [ apply potential_eq | ].
    unfold _energy; rewrite potential_eq, bind_OK, sum_square3; reflexivity.
  - rewrite energy_energy3 by reflexivity.
    rewrite default_energy; reflexivity.
  - destruct (construct_result [1.0; 0.0; 0.0] [0.0; 0.4; 0.0] 25000
                0.01 1.0e-3 0.2 0.9 0.8)
      as (self & out & K & t & e & Hrun & _ & _ & _ & _ & _ & _ & _ & Hlast);
      [ reflexivity | reflexivity | lia | ].
    exists self, out, t, e.
    split; [ rewrite init_defaults; exact Hrun | ].
    rewrite <- default_energy; exact Hlast.
  - pose proof ln_104_lower; pose proof ln_104_upper; lra.
  - pose proof ln_104_lower; pose proof ln_104_upper.
    apply Rabs_def1; lra.
Qed.

(* ===================================================================== *)
(** * The command line and the core radius                                *)
(* ===================================================================== *)

Lemma defaults_parser :
  defaults parser
  = <["pos" := VList [1.0; 0.0; 0.0]]>
      (<["vel" := VList [0.0; 0.4; 0.0]]>
         (<["nstep" := VInt 25000]>
            (<["dtime" := VFloat 0.01]>
               (<["detol" := VFloat 1.0e-3]>
                  (<["R" := VFloat 0.2]>
                     (<["b" := VFloat 0.9]>
                        (<["c" := VFloat 0.8]> ∅))))))).
Proof. reflexivity. Qed.

(** The attribute names argparse derives from the option strings: none
    of them is ["Rc"]. *)
Lemma dest_parser (a : argument) :
  In a parser -> In (dest a) ["pos"; "vel"; "nstep"; "dtime"; "detol"; "R"; "b"; "c"].
Proof.
  unfold parser; simpl.
  intros [<-|[<-|[<-|[<-|[<-|[<-|[<-|[<-|[]]]]]]]]]; cbn; tauto.
Qed.

Lemma dest_not_Rc (a : argument) : In a parser -> dest a <> "Rc".
Proof.
  intros Ha Heq; apply dest_parser in Ha; rewrite Heq in Ha.
  simpl in Ha; intuition discriminate.
Qed.

Lemma parse_no_Rc (cmdline : list (string * value)) :
  forall ns args : gmap string value,
    ns !! "Rc" = None ->
    parse parser cmdline ns = OK args ->
    args !! "Rc" = None.
Proof.
  induction cmdline as [|[flag v] rest IH]; intros ns args Hns Hparse.
  - simpl in Hparse; injection Hparse as <-; exact Hns.
  - cbn [parse] in Hparse.
    destruct (find _ parser) as [a|] eqn:Hfind; [ | discriminate ].
    apply find_some in Hfind as [Ha _].
    apply (IH _ _) in Hparse; [ exact Hparse | ].
    rewrite lookup_insert_ne by (apply dest_not_Rc; exact Ha); exact Hns.
Qed.

Lemma parse_args_no_Rc (cmdline : list (string * value))
    (args : gmap string value) :
  parse_args cmdline = OK args -> args !! "Rc" = None.
Proof.
  apply parse_no_Rc.
  rewrite defaults_parser, !lookup_insert_ne by done; apply lookup_empty.
Qed.

(** The object that [construct] returns carries the parameters it was
    given. *)
Lemma construct_attributes
    (pos vel : list R) (nstep : Z) (dtime detol Rc b c : R)
    (self : OrbitIntegrator.t) (out : list line) :
  construct pos vel nstep dtime detol Rc b c = OK (self, out) ->
  OrbitIntegrator.dtime self = dtime /\
  OrbitIntegrator.Rc self = Rc /\
  OrbitIntegrator.b self = b /\
  OrbitIntegrator.c self = c.
Proof.
  unfold construct; intros H.
  apply bind_inv in H as (vy & _ & H).
  apply bind_inv in H as (Einit & _ & H).
  apply bind_inv in H as (s & _ & H).
  destruct (l_tnow s), (l_Enow s); try discriminate.
  injection H as <- _; repeat split.
Qed.

(** Whatever the command line, the integrator is built with the default
    core radius. *)
Lemma core_radius_is_default (cmdline : list (string * value))
    (args : gmap string value) (self : OrbitIntegrator.t)
    (out : list line) :
  parse_args cmdline = OK args ->
  __init__ args = OK (self, out) ->
  OrbitIntegrator.Rc self = 0.2.
Proof.
  intros Hargs Hinit.
  rewrite init_unfold, (parse_args_no_Rc _ _ Hargs) in Hinit.
  cbn [default as_float] in Hinit.
  apply bind_inv in Hinit as (pos & _ & Hinit).
  apply bind_inv in Hinit as (vel & _ & Hinit).
  apply bind_inv in Hinit as (nstep & _ & Hinit).
  apply bind_inv in Hinit as (dtime & _ & Hinit).
  apply bind_inv in Hinit as (detol & _ & Hinit).
  rewrite bind_OK in Hinit.
  apply bind_inv in Hinit as (b & _ & Hinit).
  apply bind_inv in Hinit as (c & _ & Hinit).
  apply construct_attributes in Hinit; tauto.
Qed.

(** C7, the failing run.  With [-R 0.5] on the command line, argparse
    stores [0.5] under the name ["R"]; the constructor pops ["Rc"], finds
    nothing, and takes the default: the integrator is built with
    [Rc = 0.2], and the initial energy it reports is the one of the
    default core radius. *)
Theorem core_radius_flag_ignored :
  exists args self out tnow Enow,
    parse_args [("-R", VFloat 0.5)] = OK args /\
    args !! "R" = Some (VFloat 0.5) /\
    args !! "Rc" = None /\
    __init__ args = OK (self, out) /\
    OrbitIntegrator.Rc self = 0.2 /\
    last out = Some (RunCompleted (0.08 + 0.5 * ln 1.04) tnow Enow).
Proof.
  pose (args := <["R" := VFloat 0.5]> (defaults parser)).
  assert (Hargs : parse_args [("-R", VFloat 0.5)] = OK args) by reflexivity.
  assert (Hinit : __init__ args
    = construct [1.0; 0.0; 0.0] [0.0; 0.4; 0.0] 25000
        0.01 1.0e-3 0.2 0.9 0.8).
  { rewrite init_unfold, (parse_args_no_Rc _ _ Hargs).
    unfold args; rewrite defaults_parser.
    repeat (first [ rewrite lookup_insert_eq
                  | rewrite lookup_insert_ne by done ]).
    reflexivity. }
  destruct (construct_result [1.0; 0.0; 0.0] [0.0; 0.4; 0.0] 25000
              0.01 1.0e-3 0.2 0.9 0.8)
    as (self & out & K & t & e & Hrun & _ & HRc & _ & _ & _ & _ & _ & Hlast);
    [ reflexivity | reflexivity | lia | ].
  exists args, self, out, t, e.
  split; [ exact Hargs | ].
  split; [ unfold args; apply lookup_insert_eq | ].
  split; [ exact (parse_args_no_Rc _ _ Hargs) | ].
  split; [ rewrite Hinit; exact Hrun | ].
  split; [ exact HRc | ].
  rewrite <- default_energy; exact Hlast.
Qed.

(** The sibling flag [-b] reaches the constructor: argparse stores it
    under ["b"], the name the constructor pops. *)
Lemma axis_ratio_flag_honoured :
  exists args self out,
    parse_args [("-b", VFloat 0.5)] = OK args /\
    __init__ args = OK (self, out) /\
    OrbitIntegrator.b self = 0.5.
Proof.
  pose (args := <["b" := VFloat 0.5]> (defaults parser)).
  assert (Hargs : parse_args [("-b", VFloat 0.5)] = OK args) by reflexivity.
  assert (Hinit : __init__ args
    = construct [1.0; 0.0; 0.0] [0.0; 0.4; 0.0] 25000
        0.01 1.0e-3 0.2 0.5 0.8).
  { rewrite init_unfold, (parse_args_no_Rc _ _ Hargs).
    unfold args; rewrite defaults_parser.
    repeat (first [ rewrite lookup_insert_eq
                  | rewrite lookup_insert_ne by done ]).
    reflexivity. }
  destruct (construct_result [1.0; 0.0; 0.0] [0.0; 0.4; 0.0] 25000
              0.01 1.0e-3 0.2 0.5 0.8)
    as (self & out & K & t & e & Hrun & _ & _ & Hb & _);
    [ reflexivity | reflexivity | lia | ].
  exists args, self, out.
  split; [ exact Hargs | split; [ rewrite Hinit; exact Hrun | exact Hb ] ].
Qed.

(* ===================================================================== *)
(** * The plotter                                                         *)
(* ===================================================================== *)

(** What [plot] leaves in the figure, for any plane name with at least
    two characters: all three projections, in the order of the dictionary
    display. *)
Lemma plot_eq (self : OrbitIntegrator.t) (plane : string) (fig : Figure)
    (x y z t : list R) (p0 p1 : string) :
  np.columns4 (OrbitIntegrator.orbit self) = OK (x, y, z, t) ->
  str_index plane 0 = OK p0 ->
  str_index plane 1 = OK p1 ->
  plot self plane fig
  = OK (Fig true [(x, y, "k-"); (y, z, "k-"); (x, z, "k-")] p0 p1
          (Some ("Initial y velocity = {0}", OrbitIntegrator.vy self))).
Proof.
  intros Hcols H0 H1; unfold plot.
  rewrite Hcols, bind_OK; cbv beta iota zeta.
  unfold plt.plot, plt.set_xlabel, plt.set_ylabel, plt.set_title,
    plt.clf, plt.ion; cbv beta iota zeta.
  rewrite H0, bind_OK, H1, bind_OK; reflexivity.
Qed.

Lemma length_Smp (dtime Rc b c : R) (pos vel : list R) (j : nat) :
  length pos = 3%nat -> length vel = 3%nat ->
  length (Smp dtime Rc b c pos vel j) = 4%nat.
Proof.
  intros Hpos Hvel; unfold Smp, np.append.
  destruct (length_iter dtime Rc b c pos vel Hpos Hvel j) as [Hp _].
  rewrite length_app, Hp; reflexivity.
Qed.

Lemma columns4_trajectory (dtime Rc b c : R) (pos vel : list R) (K : nat) :
  length pos = 3%nat -> length vel = 3%nat -> (1 <= K)%nat ->
  let o := map (Smp dtime Rc b c pos vel) (seq 0 K) in
  np.columns4 o
  = OK (np.column 0 o, np.column 1 o, np.column 2 o, np.column 3 o).
Proof.
  intros Hpos Hvel HK o; unfold np.columns4.
  assert (Hall : forallb (fun r => Nat.eqb (length r) 4) o = true).
  { apply forallb_forall; intros r Hr.
    apply in_map_iff in Hr as (j & <- & _).
    rewrite length_Smp by assumption; reflexivity. }
  rewrite Hall; subst o.
  destruct K as [|K]; [ lia | reflexivity ].
Qed.

(** C8, the failing call.  On the trajectory of the default run, [plot]
    called with any of the three plane names leaves three curves in the
    figure, the projections on XY, on YZ and on XZ, and not the selected
    one alone; only the axis labels follow the plane. *)
Theorem plot_draws_all_projections :
  exists self out,
    construct [1.0; 0.0; 0.0] [0.0; 0.4; 0.0] 25000 0.01 1.0e-3 0.2 0.9 0.8
    = OK (self, out) /\
    let o := OrbitIntegrator.orbit self in
    let drawn (plane p0 p1 : string) : Prop :=
      exists fig,
        plot self plane (Fig false [] "" "" None) = OK fig /\
        curves fig
        = [ (np.column 0 o, np.column 1 o, "k-");
            (np.column 1 o, np.column 2 o, "k-");
            (np.column 0 o, np.column 2 o, "k-") ] /\
        xlabel fig = p0 /\ ylabel fig = p1 in
    drawn "XY" "X" "Y" /\ drawn "YZ" "Y" "Z" /\ drawn "XZ" "X" "Z".
Proof.
  destruct (construct_result [1.0; 0.0; 0.0] [0.0; 0.4; 0.0] 25000
              0.01 1.0e-3 0.2 0.9 0.8)
    as (self & out & K & t & e & Hrun & _ & _ & _ & _ & _ & HK & Ho & _);
    [ reflexivity | reflexivity | lia | ].
  exists self, out; split; [ exact Hrun | ].
  cbv zeta.
  pose proof (columns4_trajectory 0.01 0.2 0.9 0.8
                [1.0; 0.0; 0.0] [0.0; 0.4; 0.0] K
                ltac:(reflexivity) ltac:(reflexivity) HK) as Hcols.
  cbv zeta in Hcols; rewrite <- Ho in Hcols.
  repeat split;
    (eexists; split;
     [ eapply plot_eq; [ exact Hcols | reflexivity | reflexivity ]
     | repeat split ]).
Qed.

(* ===================================================================== *)
(** * The script as a whole, and small checks                             *)
(* ===================================================================== *)

(** The entry point with [-R 0.5]: the run succeeds, the integrator has
    the default core radius, and the figure holds the three curves. *)
Lemma main_core_radius :
  exists self out fig,
    main [("-R", VFloat 0.5)] (Fig false [] "" "" None)
    = OK (self, out, fig) /\
    OrbitIntegrator.Rc self = 0.2 /\
    length (curves fig) = 3%nat.
Proof.
  pose (args := <["R" := VFloat 0.5]> (defaults parser)).
  assert (Hargs : parse_args [("-R", VFloat 0.5)] = OK args) by reflexivity.
  assert (Hinit : __init__ args
    = construct [1.0; 0.0; 0.0] [0.0; 0.4; 0.0] 25000
        0.01 1.0e-3 0.2 0.9 0.8).
  { rewrite init_unfold, (parse_args_no_Rc _ _ Hargs).
    unfold args; rewrite defaults_parser.
    repeat (first [ rewrite lookup_insert_eq
                  | rewrite lookup_insert_ne by done ]).
    reflexivity. }
  destruct (construct_result [1.0; 0.0; 0.0] [0.0; 0.4; 0.0] 25000
              0.01 1.0e-3 0.2 0.9 0.8)
    as (self & out & K & t & e & Hrun & _ & HRc & _ & _ & _ & HK & Ho & _);
    [ reflexivity | reflexivity | lia | ].
  pose proof (columns4_trajectory 0.01 0.2 0.9 0.8
                [1.0; 0.0; 0.0] [0.0; 0.4; 0.0] K
                ltac:(reflexivity) ltac:(reflexivity) HK) as Hcols.
  cbv zeta in Hcols; rewrite <- Ho in Hcols.
  eexists self, out, _; split; [ | split; [ exact HRc | ] ].
  - unfold main; rewrite Hargs, bind_OK, Hinit, Hrun, bind_OK.
    cbv beta iota.
    erewrite plot_eq; [ reflexivity | exact Hcols | reflexivity | reflexivity ].
  - reflexivity.
Qed.

Example xrange_1_4 : xrange 1 4 = [1; 2; 3]%Z.
Proof. reflexivity. Qed.

Example add_elementwise : np.add [1; 2; 3] [4; 5; 6] = OK [1 + 4; 2 + 5; 3 + 6].
Proof. reflexivity. Qed.

Example add_broadcast : np.add [1] [4; 5; 6] = OK [1 + 4; 1 + 5; 1 + 6].
Proof. reflexivity. Qed.

Example add_shape_mismatch : np.add [1; 2] [4; 5; 6] = Raise ValueError.
Proof. reflexivity. Qed.

Example potential_two_coordinates :
  _potential 0.2 0.9 0.8 [1; 0] = Raise ValueError.
Proof. reflexivity. Qed.

Example dest_core_radius : dest (Argument "-R" (VFloat 0.2)) = "R".
Proof. reflexivity. Qed.

Example dest_position : dest (Argument "--pos" (VList [1.0; 0.0; 0.0])) = "pos".
Proof. reflexivity. Qed.

Example unknown_flag :
  parse_args [("--Rc", VFloat 0.5)] = Raise SystemExit.
Proof. reflexivity. Qed.

(** With no step to take, the closing report reads [tnow] and [Enow]
    before anything bound them. *)
Example no_step_is_a_name_error :
  construct [1; 0; 0] [0; 0.4; 0] 0 0.01 0.001 0.2 0.9 0.8 = Raise NameError.
Proof.
  unfold construct; cbn [index lookup list_lookup mbind M_bind].
  rewrite energy_energy3 by reflexivity; reflexivity.
Qed.

(** A negative tolerance rejects the very first step: the trajectory keeps
    the initial sample only, and both reports are about step 1. *)
Example negative_tolerance_aborts :
  exists self Einit Enow,
    construct [1; 0; 0] [0; 0.4; 0] 5 0.01 (-1) 0.2 0.9 0.8
    = OK (self,
          [ViolationHeader;
           ViolationDetail Einit (0.01 * 1) Enow (Einit - Enow);
           RunCompleted Einit (0.01 * 1) Enow]) /\
    OrbitIntegrator.orbit self = [[1; 0; 0; 0]].
Proof.
  eexists _, _, _; split.
  - apply (construct_abort 0.01 (-1) 0.2 0.9 0.8 [1; 0; 0] [0; 0.4; 0] 5
             ltac:(reflexivity) ltac:(reflexivity) 1).
    + change (Z.to_nat 5) with 5%nat; lia.
    + intros i Hi; lia.
    + pose proof (Rabs_pos
        (E 0.01 0.2 0.9 0.8 [1; 0; 0] [0; 0.4; 0] 0
         - E 0.01 0.2 0.9 0.8 [1; 0; 0] [0; 0.4; 0] 1)); lra.
  - cbn [OrbitIntegrator.orbit seq map]; rewrite Smp_0; reflexivity.
Qed.

(* ===================================================================== *)
(** * Further properties: when the constructor fails                      *)
(* ===================================================================== *)

Lemma index_1_ok (vel : list R) :
  (2 <= length vel)%nat -> exists vy, index vel 1 = OK vy.
Proof.
  intros H; unfold index.
  destruct (vel !! 1%nat) as [vy|] eqn:Hl; [ eauto | ].
  apply lookup_ge_None in Hl; lia.
Qed.

Lemma potential_bad_shape (Rc b c : R) (pos : list R) :
  length pos <> 3%nat -> _potential Rc b c pos = Raise ValueError.
Proof.
  intros H; destruct pos as [|x [|y [|z [|w pos]]]]; simpl in H;
    try reflexivity; lia.
Qed.

Lemma add_bad_shape (u v : list R) :
  (2 <= length u)%nat -> length v = 3%nat -> length u <> 3%nat ->
  np.add u v = Raise ValueError.
Proof.
  intros Hu Hv Hne; unfold np.add.
  destruct (Nat.eqb_spec (length u) (length v)) as [Heq|_]; [ lia | ].
  destruct u as [|a [|a' u]]; simpl in Hu; try lia.
  destruct v as [|d [|d' v]]; simpl in Hv; try lia; reflexivity.
Qed.

Lemma leapstep_bad_velocity (dtime Rc b c : R) (pos vel : list R) :
  length pos = 3%nat -> (2 <= length vel)%nat -> length vel <> 3%nat ->
  _leapstep dtime Rc b c pos vel = Raise ValueError.
Proof.
  intros Hp Hv Hne; unfold _leapstep.
  rewrite (acceleration_acc3 _ _ _ pos Hp), bind_OK.
  rewrite add_bad_shape; [ reflexivity | exact Hv | | exact Hne ].
  change np.scale with vec_scale.
  rewrite length_vec_scale; apply length_acc3; exact Hp.
Qed.

(** The failures of [construct], clause by clause. *)
Lemma construct_failures
    (pos vel : list R) (nstep : Z) (dtime detol Rc b c : R) :
  ((length vel < 2)%nat ->
     construct pos vel nstep dtime detol Rc b c = Raise IndexError) /\
  ((2 <= length vel)%nat -> length pos <> 3%nat ->
     construct pos vel nstep dtime detol Rc b c = Raise ValueError) /\
  ((2 <= length vel)%nat -> length pos = 3%nat -> (nstep < 1)%Z ->
     construct pos vel nstep dtime detol Rc b c = Raise NameError) /\
  ((2 <= length vel)%nat -> length pos = 3%nat -> (1 <= nstep)%Z ->
   length vel <> 3%nat ->
     construct pos vel nstep dtime detol Rc b c = Raise ValueError).
Proof.
  repeat split.
  - intros Hv; unfold construct, index.
    rewrite (proj2 (lookup_ge_None vel 1)) by lia; reflexivity.
  - intros Hv Hp; unfold construct.
    destruct (index_1_ok vel Hv) as [vy ->]; rewrite bind_OK.
    unfold _energy; rewrite potential_bad_shape by exact Hp; reflexivity.
  - intros Hv Hp Hn; unfold construct.
    destruct (index_1_ok vel Hv) as [vy ->]; rewrite bind_OK.
    rewrite energy_energy3 by exact Hp; rewrite bind_OK.
    unfold xrange; replace (Z.to_nat (nstep + 1 - 1)) with 0%nat by lia.
    reflexivity.
  - intros Hv Hp Hn Hne; unfold construct.
    destruct (index_1_ok vel Hv) as [vy ->]; rewrite bind_OK.
    rewrite energy_energy3 by exact Hp; rewrite bind_OK.
    rewrite xrange_steps.
    destruct (Z.to_nat nstep) as [|n] eqn:En; [ lia | ].
    cbn [seq map loop l_pos l_vel].
    rewrite leapstep_bad_velocity by assumption; reflexivity.
Qed.

(** X1.  Which exception the constructor raises, in the order the code
    meets them: a velocity with fewer than two entries is an [IndexError]
    (at [vel[1]]); otherwise a position that is not a three-vector is a
    [ValueError] (at the first unpacking); otherwise, for a step count
    that [xrange] accepts (it fits a 32-bit C long), a count below one is
    a [NameError] (the closing report reads [tnow], which no iteration
    bound); otherwise, for axis ratios whose squares do not overflow
    ([|b|, |c| <= 1e150]), a velocity that is not a three-vector is a
    [ValueError] (at the first half-kick). *)
Theorem construct_exceptions
    (pos vel : list R) (nstep : Z) (dtime detol Rc b c : R) :
  ((length vel < 2)%nat ->
     construct pos vel nstep dtime detol Rc b c = Raise IndexError) /\
  ((2 <= length vel)%nat -> length pos <> 3%nat ->
     construct pos vel nstep dtime detol Rc b c = Raise ValueError) /\
  ((2 <= length vel)%nat -> length pos = 3%nat ->
   (-2147483648 <= nstep < 1)%Z ->
     construct pos vel nstep dtime detol Rc b c = Raise NameError) /\
  ((2 <= length vel)%nat -> length pos = 3%nat ->
   (1 <= nstep < 2147483647)%Z -> Rabs b <= 1e150 -> Rabs c <= 1e150 ->
   length vel <> 3%nat ->
     construct pos vel nstep dtime detol Rc b c = Raise ValueError).
Proof.
  destruct (construct_failures pos vel nstep dtime detol Rc b c)
    as (H1 & H2 & H3 & H4).
  split; [ exact H1 | split; [ exact H2 | split ] ].
  - intros Hv Hp Hn; apply H3; [ assumption | assumption | lia ].
  - intros Hv Hp Hn _ _ Hne; apply H4; [ assumption | assumption | lia | ].
    exact Hne.
Qed.

(** X2.  For a step count that [xrange] accepts and axis ratios whose
    squares do not overflow, the constructor returns normally exactly
    when the position and the velocity are three-vectors and at least one
    step is asked for. *)
Theorem construct_returns_iff
    (pos vel : list R) (nstep : Z) (dtime detol Rc b c : R) :
  (-2147483648 <= nstep < 2147483647)%Z ->
  Rabs b <= 1e150 -> Rabs c <= 1e150 ->
  (exists r, construct pos vel nstep dtime detol Rc b c = OK r) <->
  length pos = 3%nat /\ length vel = 3%nat /\ (1 <= nstep)%Z.
Proof.
  intros _ _ _; split.
  - intros [r Hr].
    destruct (construct_failures pos vel nstep dtime detol Rc b c)
      as (H1 & H2 & H3 & H4).
    destruct (Nat.lt_ge_cases (length vel) 2) as [Hv|Hv];
      [ rewrite H1 in Hr by exact Hv; discriminate | ].
    destruct (Nat.eq_dec (length pos) 3) as [Hp|Hp];
      [ | rewrite H2 in Hr by assumption; discriminate ].
    destruct (Z_lt_ge_dec nstep 1) as [Hn|Hn];
      [ rewrite H3 in Hr by assumption; discriminate | ].
    destruct (Nat.eq_dec (length vel) 3) as [Hv3|Hv3];
      [ | rewrite H4 in Hr by (try assumption; lia); discriminate ].
    repeat split; [ assumption | assumption | lia ].
  - intros (Hp & Hv & Hn).
    destruct (construct_result pos vel nstep dtime detol Rc b c Hp Hv
                ltac:(lia)) as (self & out & _ & _ & _ & Hrun & _).
    exists (self, out); exact Hrun.
Qed.

Lemma construct_returns_iff_witness :
  (exists r,
     construct [1; 0; 0] [0; 0.4; 0] 25000 0.01 0.001 0.2 0.9 0.8 = OK r) <->
  length [1; 0; 0] = 3%nat /\ length [0; 0.4; 0] = 3%nat /\ (1 <= 25000)%Z.
Proof.
  apply (construct_returns_iff [1; 0; 0] [0; 0.4; 0] 25000
           0.01 0.001 0.2 0.9 0.8);
    [ lia | apply Rabs_le; lra | apply Rabs_le; lra ].
Defined.

(* ===================================================================== *)
(** * Further properties: what a run reports and records                  *)
(* ===================================================================== *)

(** X3.  A run ends in one of two ways, and the trajectory tells which.
    Let [k] be the last step taken, [tnow = dtime * k] and [Enow] the
    energy after [k] steps.  Either [k = nstep] and the step was
    accepted: the trajectory has [nstep + 1] samples and the output is
    the closing report alone, with [Einit], [tnow] and [Enow].  Or step
    [k] was rejected: the trajectory has exactly [k] samples, at most
    [nstep], and the output is the two violation lines followed by the
    closing report, all three with [Einit] and with the [tnow] and [Enow]
    of the rejected step. *)
Theorem run_report_shape
    (pos vel : list R) (nstep : Z) (dtime detol Rc b c : R) :
  length pos = 3%nat -> length vel = 3%nat -> (1 <= nstep)%Z ->
  exists self out Einit Enow (k : nat),
    construct pos vel nstep dtime detol Rc b c = OK (self, out) /\
    _energy Rc b c pos vel = OK Einit /\
    energy_after dtime Rc b c k pos vel = OK Enow /\
    (1 <= k)%nat /\ (Z.of_nat k <= nstep)%Z /\
    let tnow := dtime * IZR (Z.of_nat k) in
    ((Z.of_nat k = nstep /\
      length (OrbitIntegrator.orbit self) = S k /\
      out = [RunCompleted Einit tnow Enow] /\
      ~ np.abs (Einit - Enow) > detol)
     \/
     (length (OrbitIntegrator.orbit self) = k /\
      out = [ViolationHeader;
             ViolationDetail Einit tnow Enow (Einit - Enow);
             RunCompleted Einit tnow Enow] /\
      np.abs (Einit - Enow) > detol)).
Proof.
  intros Hpos Hvel Hn.
  destruct (construct_outcome dtime detol Rc b c pos vel nstep
              Hpos Hvel Hn)
    as (k & Hk & _ & [[Hv Hrun]|(Ha & HkN & Hrun)]); rewrite Hrun;
    eexists _, _, (E dtime Rc b c pos vel 0), (E dtime Rc b c pos vel k), k;
    (split; [ reflexivity | ]);
    (split; [ exact (energy_iter dtime Rc b c pos vel Hpos Hvel 0) | ]);
    (split; [ apply energy_after_E; assumption | ]);
    (split; [ lia | ]); (split; [ lia | ]);
    cbv zeta; cbn [OrbitIntegrator.orbit]; rewrite length_map, length_seq.
  - right; split; [ reflexivity | split; [ reflexivity | exact Hv ] ].
  - left; split; [ lia | split; [ reflexivity | ] ].
    split; [ reflexivity | exact Ha ].
Qed.

Lemma run_report_shape_witness :
  exists self out Einit Enow (k : nat),
    construct [1; 0; 0] [0; 0.4; 0] 25000 0.01 0.001 0.2 0.9 0.8
    = OK (self, out) /\
    _energy 0.2 0.9 0.8 [1; 0; 0] [0; 0.4; 0] = OK Einit /\
    energy_after 0.01 0.2 0.9 0.8 k [1; 0; 0] [0; 0.4; 0] = OK Enow /\
    (1 <= k)%nat /\ (Z.of_nat k <= 25000)%Z /\
    let tnow := 0.01 * IZR (Z.of_nat k) in
    ((Z.of_nat k = 25000%Z /\
      length (OrbitIntegrator.orbit self) = S k /\
      out = [RunCompleted Einit tnow Enow] /\
      ~ np.abs (Einit - Enow) > 0.001)
     \/
     (length (OrbitIntegrator.orbit self) = k /\
      out = [ViolationHeader;
             ViolationDetail Einit tnow Enow (Einit - Enow);
             RunCompleted Einit tnow Enow] /\
      np.abs (Einit - Enow) > 0.001)).
Proof.
  apply (run_report_shape [1; 0; 0] [0; 0.4; 0] 25000
           0.01 0.001 0.2 0.9 0.8);
    [ reflexivity | reflexivity | lia ].
Defined.



(** The time column of a trajectory of [K] samples. *)
Lemma column3_trajectory (dtime Rc b c : R) (pos vel : list R) (K : nat) :
  length pos = 3%nat -> length vel = 3%nat ->
  np.column 3 (map (Smp dtime Rc b c pos vel) (seq 0 K))
  = map (fun j => dtime * IZR (Z.of_nat j)) (seq 0 K).
Proof.
  intros Hpos Hvel; unfold np.column; rewrite List.map_map.
  apply List.map_ext; intros j.
  destruct (length_iter dtime Rc b c pos vel Hpos Hvel j) as [Hp _].
  unfold Smp, T, np.append.
  destruct (length3_inv _ Hp) as (x & y & z & ->); reflexivity.
Qed.



Lemma trajectory_prefix (dtime Rc b c : R) (pos vel : list R) (K1 K2 : nat) :
  (K1 <= K2)%nat ->
  map (Smp dtime Rc b c pos vel) (seq 0 K1)
  `prefix_of` map (Smp dtime Rc b c pos vel) (seq 0 K2).
Proof.
  intros H; exists (map (Smp dtime Rc b c pos vel) (seq K1 (K2 - K1))).
  rewrite <- map_app, <- seq_app; do 2 f_equal; lia.
Qed.

(** X6.  Asking for more steps, or allowing a larger energy error, never
    changes what was recorded: the trajectory of the run with fewer steps
    and the smaller tolerance is an initial segment of the other one. *)
Theorem trajectory_extends
    (pos vel : list R) (nstep1 nstep2 : Z) (dtime detol1 detol2 Rc b c : R) :
  length pos = 3%nat -> length vel = 3%nat ->
  (1 <= nstep1 <= nstep2)%Z -> detol1 <= detol2 ->
  exists self1 out1 self2 out2,
    construct pos vel nstep1 dtime detol1 Rc b c = OK (self1, out1) /\
    construct pos vel nstep2 dtime detol2 Rc b c = OK (self2, out2) /\
    OrbitIntegrator.orbit self1 `prefix_of` OrbitIntegrator.orbit self2.
Proof.
  intros Hpos Hvel Hn Hd.
  destruct (construct_outcome dtime detol1 Rc b c pos vel nstep1
              Hpos Hvel ltac:(lia)) as (k1 & Hk1 & Hlt1 & Hcase1).
  destruct (construct_outcome dtime detol2 Rc b c pos vel nstep2
              Hpos Hvel ltac:(lia)) as (k2 & Hk2 & Hlt2 & Hcase2).
  destruct Hcase1 as [[Hv1 Hrun1]|(Ha1 & HkN1 & Hrun1)];
    destruct Hcase2 as [[Hv2 Hrun2]|(Ha2 & HkN2 & Hrun2)];
    rewrite Hrun1, Hrun2; eexists _, _, _, _;
    (split; [ reflexivity | split; [ reflexivity | ] ]);
    cbn [OrbitIntegrator.orbit]; apply trajectory_prefix.
  - destruct (Nat.le_gt_cases k1 k2) as [|Hgt]; [ assumption | exfalso ].
    apply (Hlt1 k2); [ lia | lra ].
  - lia.
  - destruct (Nat.le_gt_cases (S k1) k2) as [|Hgt]; [ assumption | exfalso ].
    destruct (Nat.eq_dec k2 k1) as [Heq|Hne].
    + apply Ha1; rewrite <- Heq; lra.
    + apply (Hlt1 k2); [ lia | lra ].
  - lia.
Qed.

Lemma trajectory_extends_witness :
  exists self1 out1 self2 out2,
    construct [1; 0; 0] [0; 0.4; 0] 100 0.01 0.001 0.2 0.9 0.8
    = OK (self1, out1) /\
    construct [1; 0; 0] [0; 0.4; 0] 25000 0.01 0.01 0.2 0.9 0.8
    = OK (self2, out2) /\
    OrbitIntegrator.orbit self1 `prefix_of` OrbitIntegrator.orbit self2.
Proof.
  apply (trajectory_extends [1; 0; 0] [0; 0.4; 0] 100 25000
           0.01 0.001 0.01 0.2 0.9 0.8);
    [ reflexivity | reflexivity | lia | lra ].
Defined.

(* ===================================================================== *)
(** * Further properties: the potential and its acceleration              *)
(* ===================================================================== *)

Lemma derivable_pt_lim_eq (f g : R -> R) (x l : R) :
  (forall y, f y = g y) -> derivable_pt_lim f x l -> derivable_pt_lim g x l.
Proof.
  intros Hfg Hf eps Heps.
  destruct (Hf eps Heps) as [delta Hdelta].
  exists delta; intros h Hh0 Hh.
  rewrite <- !Hfg; apply Hdelta; assumption.
Qed.

(** The derivative of [s |-> 0.5 * ln (A + (s k)²)]. *)
Lemma half_ln_quadratic_deriv (A k t : R) :
  0 < A + (t * k) ^ 2 ->
  derivable_pt_lim (fun s => 0.5 * ln (A + (s * k) ^ 2)) t
    (t * k ^ 2 / (A + (t * k) ^ 2)).
Proof.
  intros Hpos.
  pose (g := (fct_cte A + comp (fun y => y ^ 2) (id * fct_cte k))%F).
  assert (Hg : derivable_pt_lim g t (2 * k ^ 2 * t)).
  { unfold g.
    replace (2 * k ^ 2 * t)
      with (0 + INR 2 * ((id * fct_cte k)%F t) ^ pred 2
                * (1 * fct_cte k t + id t * 0))
      by (unfold mult_fct, id, fct_cte; simpl; ring).
    apply derivable_pt_lim_plus; [ apply derivable_pt_lim_const | ].
    apply derivable_pt_lim_comp; [ | apply derivable_pt_lim_pow ].
    apply derivable_pt_lim_mult;
      [ apply derivable_pt_lim_id | apply derivable_pt_lim_const ]. }
  assert (Hgt : g t = A + (t * k) ^ 2) by reflexivity.
  apply (derivable_pt_lim_eq (mult_real_fct 0.5 (comp ln g)));
    [ intros y; reflexivity | ].
  replace (t * k ^ 2 / (A + (t * k) ^ 2))
    with (0.5 * (/ g t * (2 * k ^ 2 * t)))
    by (rewrite Hgt; replace 0.5 with (/ 2) by lra; field; lra).
  apply derivable_pt_lim_scal.
  apply derivable_pt_lim_comp; [ exact Hg | ].
  apply derivable_pt_lim_ln; rewrite Hgt; exact Hpos.
Qed.

Lemma potential_value_eq (Rc b c x y z : R) :
  potential_value Rc b c x y z = 0.5 * ln (mu2_spec Rc b c x y z).
Proof. unfold potential_value; rewrite potential_eq; reflexivity. Qed.

(** X7.  The acceleration is minus the gradient of the potential: at
    every position, each component of what [_acceleration] returns is
    minus the partial derivative of the value of [_potential] in that
    coordinate. *)
Theorem acceleration_is_minus_gradient (Rc b c x y z : R) :
  Rc <> 0 -> b <> 0 -> c <> 0 ->
  exists ax ay az,
    _acceleration Rc b c [x; y; z] = OK [ax; ay; az] /\
    derivable_pt_lim (fun s => potential_value Rc b c s y z) x (- ax) /\
    derivable_pt_lim (fun s => potential_value Rc b c x s z) y (- ay) /\
    derivable_pt_lim (fun s => potential_value Rc b c x y s) z (- az).
Proof.
  intros HRc Hb Hc.
  pose proof (mu2_spec_pos Rc b c x y z HRc) as Hmu.
  eexists _, _, _; split; [ apply acceleration_eq | ].
  split; [ | split ].
  - apply (derivable_pt_lim_eq
             (fun s => 0.5 * ln ((Rc ^ 2 + (y / b) ^ 2 + (z / c) ^ 2)
                                 + (s * 1) ^ 2))).
    { intros s; rewrite potential_value_eq; unfold mu2_spec.
      do 2 f_equal; ring. }
    assert (Heq : Rc ^ 2 + (y / b) ^ 2 + (z / c) ^ 2 + (x * 1) ^ 2
                  = mu2_spec Rc b c x y z) by (unfold mu2_spec; ring).
    replace (- - (x / mu2_spec Rc b c x y z))
      with (x * 1 ^ 2 / (Rc ^ 2 + (y / b) ^ 2 + (z / c) ^ 2 + (x * 1) ^ 2))
      by (rewrite Heq; field; lra).
    apply half_ln_quadratic_deriv; rewrite Heq; exact Hmu.
  - apply (derivable_pt_lim_eq
             (fun s => 0.5 * ln ((Rc ^ 2 + x ^ 2 + (z / c) ^ 2)
                                 + (s * / b) ^ 2))).
    { intros s; rewrite potential_value_eq; unfold mu2_spec, Rdiv.
      do 2 f_equal; ring. }
    assert (Heq : Rc ^ 2 + x ^ 2 + (z / c) ^ 2 + (y * / b) ^ 2
                  = mu2_spec Rc b c x y z) by (unfold mu2_spec, Rdiv; ring).
    replace (- - (y / b ^ 2 / mu2_spec Rc b c x y z))
      with (y * (/ b) ^ 2 / (Rc ^ 2 + x ^ 2 + (z / c) ^ 2 + (y * / b) ^ 2))
      by (rewrite Heq; field; split; [ exact Hb | lra ]).
    apply half_ln_quadratic_deriv; rewrite Heq; exact Hmu.
  - apply (derivable_pt_lim_eq
             (fun s => 0.5 * ln ((Rc ^ 2 + x ^ 2 + (y / b) ^ 2)
                                 + (s * / c) ^ 2))).
    { intros s; rewrite potential_value_eq; unfold mu2_spec, Rdiv.
      do 2 f_equal; ring. }
    assert (Heq : Rc ^ 2 + x ^ 2 + (y / b) ^ 2 + (z * / c) ^ 2
                  = mu2_spec Rc b c x y z) by (unfold mu2_spec, Rdiv; ring).
    replace (- - (z / c ^ 2 / mu2_spec Rc b c x y z))
      with (z * (/ c) ^ 2 / (Rc ^ 2 + x ^ 2 + (y / b) ^ 2 + (z * / c) ^ 2))
      by (rewrite Heq; field; split; [ exact Hc | lra ]).
    apply half_ln_quadratic_deriv; rewrite Heq; exact Hmu.
Qed.

Lemma acceleration_is_minus_gradient_witness :
  exists ax ay az,
    _acceleration 0.2 0.9 0.8 [1; 0; 0] = OK [ax; ay; az] /\
    derivable_pt_lim (fun s => potential_value 0.2 0.9 0.8 s 0 0) 1 (- ax) /\
    derivable_pt_lim (fun s => potential_value 0.2 0.9 0.8 1 s 0) 0 (- ay) /\
    derivable_pt_lim (fun s => potential_value 0.2 0.9 0.8 1 0 s) 0 (- az).
Proof.
  apply (acceleration_is_minus_gradient 0.2 0.9 0.8 1 0 0); lra.
Defined.

(* ===================================================================== *)
(** * Further properties: symmetries and invariants of the stepping       *)
(* ===================================================================== *)

Lemma mu2_spec_neg (Rc b c x y z : R) :
  mu2_spec Rc b c (- x) (- y) (- z) = mu2_spec Rc b c x y z.
Proof. unfold mu2_spec, Rdiv; ring. Qed.

Lemma acc3_neg (Rc b c : R) (pos : list R) :
  length pos = 3%nat -> acc3 Rc b c (np.neg pos) = np.neg (acc3 Rc b c pos).
Proof.
  intros H; destruct (length3_inv pos H) as (x & y & z & ->).
  unfold np.neg, acc3, acceleration_spec; cbn [map].
  rewrite mu2_spec_neg; unfold Rdiv.
  f_equal; [ | f_equal; [ | f_equal ] ]; ring.
Qed.

Lemma kick_neg (k : R) (v a : list R) :
  length v = 3%nat -> length a = 3%nat ->
  vec_add (np.neg v) (vec_scale k (np.neg a))
  = np.neg (vec_add v (vec_scale k a)).
Proof.
  intros Hv Ha.
  destruct (length3_inv v Hv) as (v0 & v1 & v2 & ->).
  destruct (length3_inv a Ha) as (a0 & a1 & a2 & ->).
  unfold vec_add, vec_scale, np.neg; simpl.
  f_equal; [ | f_equal; [ | f_equal ] ]; ring.
Qed.

Lemma energy3_neg (Rc b c : R) (pos vel : list R) :
  length pos = 3%nat -> length vel = 3%nat ->
  energy3 Rc b c (np.neg pos) (np.neg vel) = energy3 Rc b c pos vel.
Proof.
  intros Hp Hv.
  destruct (length3_inv pos Hp) as (x & y & z & ->).
  destruct (length3_inv vel Hv) as (vx & vy & vz & ->).
  unfold energy3, np.neg; cbn [map].
  rewrite mu2_spec_neg, !sum_square3; f_equal; ring.
Qed.

Section Symmetries.

Variables (dtime Rc b c : R).

Lemma step_neg (pos vel : list R) :
  length pos = 3%nat -> length vel = 3%nat ->
  pos_new dtime Rc b c (np.neg pos) (np.neg vel)
  = np.neg (pos_new dtime Rc b c pos vel) /\
  vel_new dtime Rc b c (np.neg pos) (np.neg vel)
  = np.neg (vel_new dtime Rc b c pos vel).
Proof using Type.
  intros Hp Hv.
  assert (Hh : vel_half dtime Rc b c (np.neg pos) (np.neg vel)
               = np.neg (vel_half dtime Rc b c pos vel)).
  { unfold vel_half; rewrite acc3_neg by exact Hp.
    apply kick_neg; [ exact Hv | apply length_acc3; exact Hp ]. }
  assert (Hn : pos_new dtime Rc b c (np.neg pos) (np.neg vel)
               = np.neg (pos_new dtime Rc b c pos vel)).
  { unfold pos_new; rewrite Hh.
    apply kick_neg; [ exact Hp | apply length_vel_half; assumption ]. }
  split; [ exact Hn | ].
  unfold vel_new; rewrite Hh, Hn, acc3_neg
    by (apply length_pos_new; assumption).
  apply kick_neg; [ apply length_vel_half; assumption | ].
  apply length_acc3, length_pos_new; assumption.
Qed.

Lemma iter_neg (pos vel : list R) (k : nat) :
  length pos = 3%nat -> length vel = 3%nat ->
  iter dtime Rc b c (np.neg pos) (np.neg vel) k
  = (np.neg (iter dtime Rc b c pos vel k).1,
     np.neg (iter dtime Rc b c pos vel k).2).
Proof using Type.
  intros Hp Hv; induction k as [|k IH]; [ reflexivity | ].
  destruct (length_iter dtime Rc b c pos vel Hp Hv k) as [Hpk Hvk].
  cbn [iter]; rewrite IH; cbn [fst snd].
  destruct (step_neg _ _ Hpk Hvk) as [-> ->]; reflexivity.
Qed.

Lemma iter_shift (pos vel : list R) (k : nat) :
  iter dtime Rc b c pos vel (S k)
  = iter dtime Rc b c (pos_new dtime Rc b c pos vel)
      (vel_new dtime Rc b c pos vel) k.
Proof using Type.
  induction k as [|k IH]; [ reflexivity | ].
  change (iter dtime Rc b c pos vel (S (S k)))
    with (pos_new dtime Rc b c (iter dtime Rc b c pos vel (S k)).1
            (iter dtime Rc b c pos vel (S k)).2,
          vel_new dtime Rc b c (iter dtime Rc b c pos vel (S k)).1
            (iter dtime Rc b c pos vel (S k)).2).
  rewrite IH; reflexivity.
Qed.

Lemma iter_reversed (pos vel : list R) (k : nat) :
  length pos = 3%nat -> length vel = 3%nat ->
  iter dtime Rc b c (iter dtime Rc b c pos vel k).1
    (np.neg (iter dtime Rc b c pos vel k).2) k
  = (pos, np.neg vel).
Proof using Type.
  intros Hp Hv; induction k as [|k IH]; [ reflexivity | ].
  destruct (length_iter dtime Rc b c pos vel Hp Hv k) as [Hpk Hvk].
  rewrite iter_shift; cbn [iter fst snd].
  rewrite (pos_new_reversed dtime Rc b c _ _ Hpk Hvk).
  rewrite (vel_new_reversed dtime Rc b c _ _ Hpk Hvk).
  exact IH.
Qed.

End Symmetries.

(** X8.  The integrator is point-symmetric: started from the mirrored
    state [(-pos, -vel)], after any number of steps it is at the mirror
    image of the state reached from [(pos, vel)], with the same energy. *)
Theorem mirrored_run
    (dtime Rc b c : R) (pos vel : list R) (k : nat) :
  length pos = 3%nat -> length vel = 3%nat ->
  exists p v e,
    steps dtime Rc b c k pos vel = OK (p, v) /\
    steps dtime Rc b c k (np.neg pos) (np.neg vel) = OK (np.neg p, np.neg v) /\
    energy_after dtime Rc b c k pos vel = OK e /\
    energy_after dtime Rc b c k (np.neg pos) (np.neg vel) = OK e.
Proof.
  intros Hp Hv.
  assert (Hp' : length (np.neg pos) = 3%nat) by (rewrite length_neg; exact Hp).
  assert (Hv' : length (np.neg vel) = 3%nat) by (rewrite length_neg; exact Hv).
  destruct (length_iter dtime Rc b c pos vel Hp Hv k) as [Hpk Hvk].
  exists (iter dtime Rc b c pos vel k).1, (iter dtime Rc b c pos vel k).2,
    (E dtime Rc b c pos vel k).
  split; [ rewrite <- surjective_pairing; apply steps_iter; assumption | ].
  split; [ rewrite <- iter_neg by assumption; apply steps_iter; assumption | ].
  split; [ apply energy_after_E; assumption | ].
  rewrite energy_after_E by assumption; f_equal.
  unfold E; rewrite iter_neg by assumption; cbn [fst snd].
  apply energy3_neg; assumption.
Qed.

Lemma mirrored_run_witness :
  exists p v e,
    steps 0.01 0.2 0.9 0.8 7 [1; 0; 0] [0; 0.4; 0] = OK (p, v) /\
    steps 0.01 0.2 0.9 0.8 7 (np.neg [1; 0; 0]) (np.neg [0; 0.4; 0])
    = OK (np.neg p, np.neg v) /\
    energy_after 0.01 0.2 0.9 0.8 7 [1; 0; 0] [0; 0.4; 0] = OK e /\
    energy_after 0.01 0.2 0.9 0.8 7 (np.neg [1; 0; 0]) (np.neg [0; 0.4; 0])
    = OK e.
Proof.
  apply (mirrored_run 0.01 0.2 0.9 0.8 [1; 0; 0] [0; 0.4; 0] 7); reflexivity.
Defined.

(** X9.  Whole runs are time-reversible in exact arithmetic: after [k]
    steps, reversing the velocity and taking [k] more steps leads back to
    the initial position, with the initial velocity reversed. *)
Theorem steps_reversible
    (dtime Rc b c : R) (pos vel : list R) (k : nat) :
  length pos = 3%nat -> length vel = 3%nat ->
  exists p v,
    steps dtime Rc b c k pos vel = OK (p, v) /\
    steps dtime Rc b c k p (np.neg v) = OK (pos, np.neg vel).
Proof.
  intros Hp Hv.
  destruct (length_iter dtime Rc b c pos vel Hp Hv k) as [Hpk Hvk].
  exists (iter dtime Rc b c pos vel k).1, (iter dtime Rc b c pos vel k).2.
  split; [ rewrite <- surjective_pairing; apply steps_iter; assumption | ].
  rewrite steps_iter by (try rewrite length_neg; assumption).
  rewrite iter_reversed by assumption; reflexivity.
Qed.

Lemma steps_reversible_witness :
  exists p v,
    steps 0.01 0.2 0.9 0.8 7 [1; 0; 0] [0; 0.4; 0] = OK (p, v) /\
    steps 0.01 0.2 0.9 0.8 7 p (np.neg v)
    = OK ([1; 0; 0], np.neg [0; 0.4; 0]).
Proof.
  apply (steps_reversible 0.01 0.2 0.9 0.8 [1; 0; 0] [0; 0.4; 0] 7);
    reflexivity.
Defined.

(** One step keeps a state of the plane [z = 0] in that plane. *)
Lemma step_planar (dtime Rc b c x y vx vy : R) :
  exists x' y' vx' vy',
    pos_new dtime Rc b c [x; y; 0] [vx; vy; 0] = [x'; y'; 0] /\
    vel_new dtime Rc b c [x; y; 0] [vx; vy; 0] = [vx'; vy'; 0].
Proof.
  assert (Hp : exists x' y',
            pos_new dtime Rc b c [x; y; 0] [vx; vy; 0] = [x'; y'; 0]).
  { eexists _, _.
    unfold pos_new, vel_half, vec_add, vec_scale, acc3, acceleration_spec.
    cbn [map zip_with]; do 2 f_equal; f_equal.
    unfold Rdiv; ring. }
  destruct Hp as (x' & y' & Hp); exists x', y'.
  unfold vel_new; rewrite Hp.
  eexists _, _; split; [ reflexivity | ].
  unfold vel_half, vec_add, vec_scale, acc3, acceleration_spec.
  cbn [map zip_with]; do 2 f_equal; f_equal.
  unfold Rdiv; ring.
Qed.



(** One step leaves [Lz] as it was when the potential is symmetric about
    the z-axis ([b = 1]). *)
Lemma step_Lz (dtime Rc c : R) (pos vel : list R) :
  length pos = 3%nat -> length vel = 3%nat ->
  Lz (pos_new dtime Rc 1 c pos vel) (vel_new dtime Rc 1 c pos vel)
  = Lz pos vel.
Proof.
  intros Hp Hv.
  destruct (length3_inv pos Hp) as (x & y & z & ->).
  destruct (length3_inv vel Hv) as (vx & vy & vz & ->).
  pose proof (length_pos_new dtime Rc 1 c [x; y; z] [vx; vy; vz]
                ltac:(reflexivity) ltac:(reflexivity)) as Hn.
  destruct (length3_inv _ Hn) as (x' & y' & z' & Epn).
  unfold vel_new; rewrite Epn.
  assert (Hx : x' = x + dtime * (vx + 0.5 * dtime
                 * - (x / mu2_spec Rc 1 c x y z)) /\
               y' = y + dtime * (vy + 0.5 * dtime
                 * - (y / 1 ^ 2 / mu2_spec Rc 1 c x y z))).
  { unfold pos_new, vel_half, vec_add, vec_scale, acc3, acceleration_spec
      in Epn; cbn [map zip_with] in Epn.
    injection Epn as <- <- _; split; reflexivity. }
  destruct Hx as [Hx Hy].
  unfold vel_half, vec_add, vec_scale, acc3, acceleration_spec, Lz.
  cbn [map zip_with nth].
  generalize (mu2_spec Rc 1 c x' y' z'); intros m'.
  rewrite Hx, Hy.
  generalize (mu2_spec Rc 1 c x y z); intros m.
  replace (1 ^ 2) with 1 by ring.
  unfold Rdiv; rewrite Rinv_1; ring.
Qed.

(** X11.  In exact real arithmetic, when the potential is symmetric
    about the z-axis ([b = 1]) and [Rc] and [c] are nonzero, the scheme
    conserves the z-component [x*vy - y*vx] of the angular momentum:
    after any number of steps it has its initial value.  Rounding is
    outside this statement, as it is for reversibility. *)
Theorem angular_momentum_conserved
    (dtime Rc c : R) (pos vel : list R) (k : nat) :
  Rc <> 0 -> c <> 0 ->
  length pos = 3%nat -> length vel = 3%nat ->
  exists p v,
    steps dtime Rc 1 c k pos vel = OK (p, v) /\
    Lz p v = Lz pos vel.
Proof.
  intros _ _ Hp Hv.
  exists (iter dtime Rc 1 c pos vel k).1, (iter dtime Rc 1 c pos vel k).2.
  split; [ rewrite <- surjective_pairing; apply steps_iter; assumption | ].
  induction k as [|k IH]; [ reflexivity | ].
  destruct (length_iter dtime Rc 1 c pos vel Hp Hv k) as [Hpk Hvk].
  cbn [iter fst snd]; rewrite step_Lz by assumption; exact IH.
Qed.

Lemma angular_momentum_conserved_witness :
  exists p v,
    steps 0.01 0.2 1 0.8 100 [1; 0; 0] [0; 0.4; 0] = OK (p, v) /\
    Lz p v = Lz [1; 0; 0] [0; 0.4; 0].
Proof.
  apply (angular_momentum_conserved 0.01 0.2 0.8 [1; 0; 0] [0; 0.4; 0] 100);
    [ lra | lra | reflexivity | reflexivity ].
Defined.

(** A state that one step maps to itself: the run never moves, no check
    fails, and every sample holds the initial position. *)
Lemma stationary_run
    (pos vel : list R) (nstep : Z) (dtime detol Rc b c : R) :
  length pos = 3%nat -> length vel = 3%nat -> (1 <= nstep)%Z -> 0 <= detol ->
  pos_new dtime Rc b c pos vel = pos ->
  vel_new dtime Rc b c pos vel = vel ->
  exists self out,
    construct pos vel nstep dtime detol Rc b c = OK (self, out) /\
    OrbitIntegrator.orbit self
    = map (fun j => pos ++ [dtime * IZR (Z.of_nat j)])
        (seq 0 (S (Z.to_nat nstep))) /\
    length out = 1%nat.
Proof.
  intros Hpos Hvel Hn Hd Hp Hv.
  assert (Hiter : forall k, iter dtime Rc b c pos vel k = (pos, vel)).
  { induction k as [|k IH]; [ reflexivity | ].
    cbn [iter]; rewrite IH; cbn [fst snd]; rewrite Hp, Hv; reflexivity. }
  eexists _, _; split; [ | split ].
  - apply construct_complete; try assumption.
    intros i _; unfold E; rewrite !Hiter; cbn [fst snd].
    replace (energy3 Rc b c pos vel - energy3 Rc b c pos vel) with 0 by ring.
    rewrite Rabs_pos_eq by lra; lra.
  - cbn [OrbitIntegrator.orbit]; apply List.map_ext; intros j.
    unfold Smp, T, np.append; rewrite Hiter; reflexivity.
  - reflexivity.
Qed.



Lemma vec_add_scale_0 (v a : list R) :
  length v = 3%nat -> length a = 3%nat -> vec_add v (vec_scale 0 a) = v.
Proof.
  intros Hv Ha.
  destruct (length3_inv v Hv) as (v0 & v1 & v2 & ->).
  destruct (length3_inv a Ha) as (a0 & a1 & a2 & ->).
  unfold vec_add, vec_scale; simpl.
  f_equal; [ | f_equal; [ | f_equal ] ]; ring.
Qed.



(* ===================================================================== *)
(** * Further properties: keyword options and command-line flags          *)
(* ===================================================================== *)

(** X14.  A keyword that is neither one of the eight option names nor
    [self], the name of the method's own first parameter, which Python
    refuses as a keyword, is silently ignored: the constructor behaves
    exactly as without it. *)
Theorem unknown_keyword_ignored
    (kwargs : gmap string value) (key : string) (v : value) :
  key <> "self" ->
  ~ In key ["pos"; "vel"; "nstep"; "dtime"; "detol"; "Rc"; "b"; "c"] ->
  __init__ (<[key := v]> kwargs) = __init__ kwargs.
Proof.
  intros _ Hkey; rewrite !init_unfold.
  rewrite !lookup_insert_ne
    by (intros ->; apply Hkey; simpl; tauto).
  reflexivity.
Qed.

Lemma unknown_keyword_ignored_witness :
  "R" <> "self" /\
  ~ In "R" ["pos"; "vel"; "nstep"; "dtime"; "detol"; "Rc"; "b"; "c"] /\
  __init__ (<["R" := VFloat 0.5]> ∅) = __init__ ∅.
Proof.
  assert (H0 : "R" <> "self") by discriminate.
  assert (H : ~ In "R" ["pos"; "vel"; "nstep"; "dtime"; "detol"; "Rc"; "b"; "c"])
    by (simpl; intuition discriminate).
  split; [ exact H0 | split; [ exact H | ] ].
  apply (unknown_keyword_ignored ∅ "R" (VFloat 0.5) H0 H).
Defined.

(** X15.  The keywords [dtime], [Rc], [b] and [c] reach the object: when
    the constructor returns, the attributes [self.dtime], [self.Rc],
    [self.b] and [self.c] are the values passed under these names. *)
Theorem keywords_set_attributes
    (kwargs : gmap string value) (dt rc bb cc : R)
    (self : OrbitIntegrator.t) (out : list line) :
  __init__ (<["dtime" := VFloat dt]> (<["Rc" := VFloat rc]>
              (<["b" := VFloat bb]> (<["c" := VFloat cc]> kwargs))))
  = OK (self, out) ->
  OrbitIntegrator.dtime self = dt /\
  OrbitIntegrator.Rc self = rc /\
  OrbitIntegrator.b self = bb /\
  OrbitIntegrator.c self = cc.
Proof.
  intros Hinit; rewrite init_unfold in Hinit.
  repeat (first [ rewrite lookup_insert_eq in Hinit
                | rewrite lookup_insert_ne in Hinit by done ]).
  apply bind_inv in Hinit as (pos & _ & Hinit).
  apply bind_inv in Hinit as (vel & _ & Hinit).
  apply bind_inv in Hinit as (nstep & _ & Hinit).
  change (default (VFloat 0.01) (Some (VFloat dt))) with (VFloat dt) in Hinit.
  change (default (VFloat 0.2) (Some (VFloat rc))) with (VFloat rc) in Hinit.
  change (default (VFloat 0.9) (Some (VFloat bb))) with (VFloat bb) in Hinit.
  change (default (VFloat 0.8) (Some (VFloat cc))) with (VFloat cc) in Hinit.
  cbn [as_float] in Hinit; rewrite bind_OK in Hinit.
  apply bind_inv in Hinit as (detol & _ & Hinit).
  rewrite !bind_OK in Hinit.
  apply construct_attributes in Hinit; exact Hinit.
Qed.

Lemma init_with_parameters (dt rc bb cc : R) :
  __init__ (<["dtime" := VFloat dt]> (<["Rc" := VFloat rc]>
              (<["b" := VFloat bb]> (<["c" := VFloat cc]> ∅))))
  = construct [1.0; 0.0; 0.0] [0.0; 0.4; 0.0] 25000 dt 1.0e-3 rc bb cc.
Proof.
  rewrite init_unfold.
  repeat (first [ rewrite lookup_insert_eq
                | rewrite lookup_insert_ne by done
                | rewrite lookup_empty ]).
  reflexivity.
Qed.

Lemma keywords_set_attributes_witness :
  exists self out,
    __init__ (<["dtime" := VFloat 0.02]> (<["Rc" := VFloat 0.5]>
                (<["b" := VFloat 1]> (<["c" := VFloat 1]> ∅))))
    = OK (self, out) /\
    OrbitIntegrator.dtime self = 0.02 /\
    OrbitIntegrator.Rc self = 0.5 /\
    OrbitIntegrator.b self = 1 /\
    OrbitIntegrator.c self = 1.
Proof.
  destruct (construct_result [1.0; 0.0; 0.0] [0.0; 0.4; 0.0] 25000
              0.02 1.0e-3 0.5 1 1)
    as (self & out & _ & _ & _ & Hrun & _);
    [ reflexivity | reflexivity | lia | ].
  rewrite <- init_with_parameters in Hrun.
  exists self, out; split; [ exact Hrun | ].
  exact (keywords_set_attributes ∅ 0.02 0.5 1 1 self out Hrun).
Defined.

(** X16.  The flags [--dtime], [-b] and [-c] reach the integrator: built
    from a command line that gives each of them once, it has these values
    as [self.dtime], [self.b] and [self.c], next to the default core
    radius. *)
Theorem flags_set_attributes (dt bb cc : R) :
  exists args self out,
    parse_args [("--dtime", VFloat dt); ("-b", VFloat bb); ("-c", VFloat cc)]
    = OK args /\
    __init__ args = OK (self, out) /\
    OrbitIntegrator.dtime self = dt /\
    OrbitIntegrator.b self = bb /\
    OrbitIntegrator.c self = cc /\
    OrbitIntegrator.Rc self = 0.2.
Proof.
  pose (args := <["c" := VFloat cc]> (<["b" := VFloat bb]>
                  (<["dtime" := VFloat dt]> (defaults parser)))).
  assert (Hargs : parse_args [("--dtime", VFloat dt); ("-b", VFloat bb);
                              ("-c", VFloat cc)] = OK args) by reflexivity.
  assert (Hinit : __init__ args
    = construct [1.0; 0.0; 0.0] [0.0; 0.4; 0.0] 25000 dt 1.0e-3 0.2 bb cc).
  { rewrite init_unfold, (parse_args_no_Rc _ _ Hargs).
    unfold args; rewrite defaults_parser.
    repeat (first [ rewrite lookup_insert_eq
                  | rewrite lookup_insert_ne by done ]).
    reflexivity. }
  destruct (construct_result [1.0; 0.0; 0.0] [0.0; 0.4; 0.0] 25000
              dt 1.0e-3 0.2 bb cc)
    as (self & out & _ & _ & _ & Hrun & Hdt & HRc & Hb & Hc & _);
    [ reflexivity | reflexivity | lia | ].
  exists args, self, out.
  split; [ exact Hargs | split; [ rewrite Hinit; exact Hrun | ] ].
  repeat split; assumption.
Qed.

(* ===================================================================== *)
(** * Further properties: plotting and writing a finished run             *)
(* ===================================================================== *)

(** X17.  After any successful run, [plot] accepts every plane name of at
    least two characters, one of the three known names or not: it
    returns normally, the figure holds three curves, the axis labels are
    the first and the second character of the name, and the title shows
    the initial y-velocity [vel[1]].  What the figure held before does
    not matter: it is cleared first. *)
Theorem plot_accepts_any_plane
    (pos vel : list R) (nstep : Z) (dtime detol Rc b c : R)
    (a0 a1 : ascii) (rest : string) :
  length pos = 3%nat -> length vel = 3%nat -> (1 <= nstep)%Z ->
  exists self out fig,
    construct pos vel nstep dtime detol Rc b c = OK (self, out) /\
    (forall fig0, plot self (String a0 (String a1 rest)) fig0 = OK fig) /\
    length (curves fig) = 3%nat /\
    xlabel fig = String a0 "" /\
    ylabel fig = String a1 "" /\
    exists vy,
      vel !! 1%nat = Some vy /\
      title fig = Some ("Initial y velocity = {0}", vy).
Proof.
  intros Hpos Hvel Hn.
  destruct (construct_result pos vel nstep dtime detol Rc b c Hpos Hvel
              ltac:(lia))
    as (self & out & K & _ & _ & Hrun & _ & _ & _ & _ & Hvy & HK & Ho & _).
  pose proof (columns4_trajectory dtime Rc b c pos vel K Hpos Hvel HK)
    as Hcols.
  cbv zeta in Hcols; rewrite <- Ho in Hcols.
  eexists self, out, _; split; [ exact Hrun | split ].
  - intros fig0.
    eapply plot_eq; [ exact Hcols | reflexivity | reflexivity ].
  - repeat split.
    exists (OrbitIntegrator.vy self); split; [ symmetry; exact Hvy | ].
    reflexivity.
Qed.

Lemma plot_accepts_any_plane_witness :
  exists self out fig,
    construct [1; 0; 0] [0; 0.4; 0] 25000 0.01 0.001 0.2 0.9 0.8
    = OK (self, out) /\
    (forall fig0, plot self "ZX" fig0 = OK fig) /\
    length (curves fig) = 3%nat /\
    xlabel fig = "Z" /\
    ylabel fig = "X" /\
    exists vy,
      [0; 0.4; 0] !! 1%nat = Some vy /\
      title fig = Some ("Initial y velocity = {0}", vy).
Proof.
  apply (plot_accepts_any_plane [1; 0; 0] [0; 0.4; 0] 25000
           0.01 0.001 0.2 0.9 0.8 "Z" "X" "");
    [ reflexivity | reflexivity | lia ].
Defined.

(** X18.  A plane name of fewer than two characters makes [plot] raise
    an [IndexError], at the axis labels. *)
Theorem plot_short_plane
    (pos vel : list R) (nstep : Z) (dtime detol Rc b c : R) :
  length pos = 3%nat -> length vel = 3%nat -> (1 <= nstep)%Z ->
  exists self out,
    construct pos vel nstep dtime detol Rc b c = OK (self, out) /\
    forall (plane : string) (fig0 : Figure),
      (String.length plane < 2)%nat ->
      plot self plane fig0 = Raise IndexError.
Proof.
  intros Hpos Hvel Hn.
  destruct (construct_result pos vel nstep dtime detol Rc b c Hpos Hvel
              ltac:(lia))
    as (self & out & K & _ & _ & Hrun & _ & _ & _ & _ & _ & HK & Ho & _).
  pose proof (columns4_trajectory dtime Rc b c pos vel K Hpos Hvel HK)
    as Hcols.
  cbv zeta in Hcols; rewrite <- Ho in Hcols.
  exists self, out; split; [ exact Hrun | ].
  intros plane fig0 Hlen.
  unfold plot; rewrite Hcols, bind_OK; cbv beta iota zeta.
  unfold plt.plot; cbv beta iota zeta.
  destruct plane as [|a0 [|a1 rest]]; [ reflexivity | reflexivity | ].
  simpl in Hlen; lia.
Qed.

Lemma plot_short_plane_witness :
  exists self out,
    construct [1; 0; 0] [0; 0.4; 0] 25000 0.01 0.001 0.2 0.9 0.8
    = OK (self, out) /\
    forall (plane : string) (fig0 : Figure),
      (String.length plane < 2)%nat ->
      plot self plane fig0 = Raise IndexError.
Proof.
  apply (plot_short_plane [1; 0; 0] [0; 0.4; 0] 25000
           0.01 0.001 0.2 0.9 0.8);
    [ reflexivity | reflexivity | lia ].
Defined.

Lemma format_rows_trajectory (dtime Rc b c : R) (pos vel : list R)
    (l : list nat) :
  length pos = 3%nat -> length vel = 3%nat ->
  exists rows,
    mapM format_row (map (Smp dtime Rc b c pos vel) l) = OK rows /\
    length rows = length l /\
    forall (i j : nat) (row : fline),
      l !! i = Some j -> rows !! i = Some row ->
      exists x y z v,
        steps dtime Rc b c j pos vel = OK ([x; y; z], v) /\
        row = Row x y z (dtime * IZR (Z.of_nat j)).
Proof.
  intros Hpos Hvel; induction l as [|j l (rows & Hrows & Hlen & Hrow)].
  - exists []; split; [ reflexivity | split; [ reflexivity | ] ].
    intros i j row Hi; rewrite lookup_nil in Hi; discriminate.
  - destruct (length_iter dtime Rc b c pos vel Hpos Hvel j) as [Hp _].
    destruct (length3_inv _ Hp) as (x & y & z & Exyz).
    exists (Row x y z (dtime * IZR (Z.of_nat j)) :: rows).
    split; [ | split ].
    + cbn [map mapM]; rewrite Hrows.
      unfold Smp, T, np.append; rewrite Exyz; reflexivity.
    + simpl; rewrite Hlen; reflexivity.
    + intros [|i] j' row Hi Hr; simpl in Hi, Hr.
      * injection Hi as <-; injection Hr as <-.
        exists x, y, z, (iter dtime Rc b c pos vel j).2; split;
          [ | reflexivity ].
        rewrite <- Exyz, <- surjective_pairing; apply steps_iter; assumption.
      * exact (Hrow i j' row Hi Hr).
Qed.

(** X19.  After any successful run, [write] on a path that [open] does
    not accept raises [IOError]; on a path it accepts, [write] returns
    normally and leaves there the header line followed by one row per
    recorded sample, in order: row [j] holds the position after [j] steps
    and the time [dtime * j].  The header is the four column names, each
    right-aligned in eleven characters. *)
Theorem write_after_run
    (pos vel : list R) (nstep : Z) (dtime detol Rc b c : R) :
  length pos = 3%nat -> length vel = 3%nat -> (1 <= nstep)%Z ->
  exists self out rows,
    construct pos vel nstep dtime detol Rc b c = OK (self, out) /\
    (forall (file : string) (fs : filesystem),
       writable fs file = false -> write self file fs = RaisedIOError) /\
    (forall (file : string) (fs : filesystem),
       writable fs file = true ->
       write self file fs
       = Returned (Files (writable fs)
                     (<[file := Text header :: rows]> (contents fs)))) /\
    header = "#          x           y           z        time" +:+ newline /\
    length rows = length (OrbitIntegrator.orbit self) /\
    forall (j : nat) (row : fline),
      rows !! j = Some row ->
      exists x y z v,
        steps dtime Rc b c j pos vel = OK ([x; y; z], v) /\
        row = Row x y z (dtime * IZR (Z.of_nat j)).
Proof.
  intros Hpos Hvel Hn.
  destruct (construct_result pos vel nstep dtime detol Rc b c Hpos Hvel
              ltac:(lia))
    as (self & out & K & _ & _ & Hrun & _ & _ & _ & _ & _ & HK & Ho & _).
  destruct (format_rows_trajectory dtime Rc b c pos vel (seq 0 K) Hpos Hvel)
    as (rows & Hrows & Hlen & Hrow).
  exists self, out, rows; split; [ exact Hrun | ].
  split; [ | split; [ | split; [ reflexivity | split ] ] ].
  - intros file fs Hw; unfold write; rewrite Hw; reflexivity.
  - intros file fs Hw; unfold write; rewrite Hw, Ho, Hrows; reflexivity.
  - rewrite Ho, length_map; exact Hlen.
  - intros j row Hj.
    assert (Hlt : (j < K)%nat).
    { apply lookup_lt_Some in Hj; rewrite Hlen, length_seq in Hj; exact Hj. }
    apply (Hrow j j row); [ | exact Hj ].
    apply lookup_seq; split; [ reflexivity | exact Hlt ].
Qed.

Lemma write_after_run_witness :
  exists self out rows,
    construct [1; 0; 0] [0; 0.4; 0] 25000 0.01 0.001 0.2 0.9 0.8
    = OK (self, out) /\
    (forall (file : string) (fs : filesystem),
       writable fs file = false -> write self file fs = RaisedIOError) /\
    (forall (file : string) (fs : filesystem),
       writable fs file = true ->
       write self file fs
       = Returned (Files (writable fs)
                     (<[file := Text header :: rows]> (contents fs)))) /\
    header = "#          x           y           z        time" +:+ newline /\
    length rows = length (OrbitIntegrator.orbit self) /\
    forall (j : nat) (row : fline),
      rows !! j = Some row ->
      exists x y z v,
        steps 0.01 0.2 0.9 0.8 j [1; 0; 0] [0; 0.4; 0] = OK ([x; y; z], v) /\
        row = Row x y z (0.01 * IZR (Z.of_nat j)).
Proof.
  apply (write_after_run [1; 0; 0] [0; 0.4; 0] 25000
           0.01 0.001 0.2 0.9 0.8);
    [ reflexivity | reflexivity | lia ].
Defined.

(** ** The name of the output files *)

Lemma replace_char_absent (old new : ascii) (s : string) :
  old <> new -> occurs old (replace_char old new s) = false.
Proof.
  intros Hne; induction s as [|a s IH]; [ reflexivity | ].
  cbn [replace_char occurs]; rewrite IH, orb_false_r.
  destruct (Ascii.eqb_spec a old) as [->|Ha].
  - apply Ascii.eqb_neq; congruence.
  - apply Ascii.eqb_neq; exact Ha.
Qed.

Lemma replace_char_length (old new : ascii) (s : string) :
  String.length (replace_char old new s) = String.length s.
Proof. induction s as [|a s IH]; simpl; congruence. Qed.

Lemma replace_char_id (old new : ascii) (s : string) :
  occurs old s = false -> replace_char old new s = s.
Proof.
  induction s as [|a s IH]; [ reflexivity | ].
  cbn [occurs replace_char]; intros H.
  apply orb_false_iff in H as [Ha Hs].
  rewrite Ha, IH by exact Hs; reflexivity.
Qed.

Lemma occurs_append (a : ascii) (s1 s2 : string) :
  occurs a (s1 +:+ s2) = occurs a s1 || occurs a s2.
Proof.
  induction s1 as [|a1 s1 IH]; [ reflexivity | ].
  change (Ascii.eqb a1 a || occurs a (s1 +:+ s2)
          = Ascii.eqb a1 a || occurs a s1 || occurs a s2).
  rewrite IH; apply orb_assoc.
Qed.

Lemma length_append (s1 s2 : string) :
  String.length (s1 +:+ s2) = (String.length s1 + String.length s2)%nat.
Proof.
  induction s1 as [|a1 s1 IH]; [ reflexivity | ].
  change (S (String.length (s1 +:+ s2))
          = S (String.length s1 + String.length s2)).
  rewrite IH; reflexivity.
Qed.

(** X20.  The name under which the results are saved never contains a
    dot, whatever text the y-velocity prints as; it is the fixed prefix
    followed by that text, of the same length, and a text without a dot
    is kept as it is. *)
Theorem fname_has_no_dot (text : string) :
  occurs "." (fname text) = false /\
  String.length (fname text) = (12 + String.length text)%nat /\
  (occurs "." text = false -> fname text = "RunOrbit/vy_" +:+ text).
Proof.
  unfold fname; split; [ | split ].
  - rewrite occurs_append, replace_char_absent by discriminate.
    reflexivity.
  - rewrite length_append, replace_char_length; reflexivity.
  - intros H; rewrite replace_char_id by exact H; reflexivity.
Qed.

(** The four failures of the constructor, each on a small input. *)
Lemma construct_exceptions_witness :
  construct [1; 0; 0] [0.4] 10 0.01 0.001 0.2 0.9 0.8 = Raise IndexError /\
  construct [1; 0] [0; 0.4; 0] 10 0.01 0.001 0.2 0.9 0.8 = Raise ValueError /\
  construct [1; 0; 0] [0; 0.4; 0] 0 0.01 0.001 0.2 0.9 0.8 = Raise NameError /\
  construct [1; 0; 0] [0; 0.4] 10 0.01 0.001 0.2 0.9 0.8 = Raise ValueError.
Proof.
  split; [ | split; [ | split ] ].
  - apply (proj1 (construct_exceptions [1; 0; 0] [0.4] 10
                    0.01 0.001 0.2 0.9 0.8)).
    simpl; lia.
  - apply (proj1 (proj2 (construct_exceptions [1; 0] [0; 0.4; 0] 10
                           0.01 0.001 0.2 0.9 0.8)));
      simpl; lia.
  - apply (proj1 (proj2 (proj2 (construct_exceptions [1; 0; 0] [0; 0.4; 0] 0
                                  0.01 0.001 0.2 0.9 0.8))));
      [ simpl; lia | reflexivity | lia ].
  - apply (proj2 (proj2 (proj2 (construct_exceptions [1; 0; 0] [0; 0.4] 10
                                  0.01 0.001 0.2 0.9 0.8))));
      [ simpl; lia | reflexivity | lia | apply Rabs_le; lra
      | apply Rabs_le; lra | simpl; lia ].
Defined.
